(** * Smart Fence Guardian 2.0: a shallow embedding of the dashboard script

    The script [Smartfenceguardian2.0.py] is re-run from top to bottom on
    every refresh.  Each run fabricates a waveform ([simulate_signal]),
    thresholds it ([detect_event]), draws a few derived views (among them
    the rolling RMS) and prepends a detected event to the session log, which
    can be exported as CSV.

    Conventions of the embedding
    - numpy arrays of float64 are [list R]: samples are idealised as real
      numbers, so that [sin], [sqrt] and the order are the mathematical ones;
      the one float that is printed, the location, is an exact rational;
    - the random draws and the wall clock a run consumes are inputs of the
      run, gathered in the records [NoiseDraws], [Env] and [Refresh];
    - Python exceptions are the [Raise] outcome of the [result] monad;
    - a Python [dict] is an association list in insertion order, because the
      order of the keys decides the order of the CSV columns;
    - the views that only draw (waveform, FFT, Welch PSD, map, bar chart)
      leave no trace in the session state and are not modelled. *)

From Stdlib Require Import Reals Lra Lia String Ascii QArith ZArith Bool Arith List.
From Stdlib Require Import Qround.
From Stdlib Require Import Strings.Byte.
From Stdlib Require Lqa.
From Stdlib Require Import Permutation Sorted.
Import ListNotations.

Set Warnings "-abstract-large-number".

Open Scope nat_scope.

(** ** Exceptions *)

Inductive exn : Set := ValueError | IndexError | KeyError.

Inductive result (A : Type) : Type :=
| Ok (a : A)
| Raise (e : exn).

Arguments Ok {A} a.
Arguments Raise {A} e.

Definition bind {A B : Type} (r : result A) (k : A -> result B) : result B :=
  match r with
  | Ok a => k a
  | Raise e => Raise e
  end.

Declare Scope result_scope.
Delimit Scope result_scope with result.
Notation "x <- r ;; k" := (bind r (fun x => k))
  (at level 61, r at next level, right associativity) : result_scope.

(** ** The part of numpy the script uses, over real samples *)

Module np.
Local Open Scope R_scope.

(** [np.linspace(start, stop, num)]: [num] points, both ends included. *)
Definition linspace (start stop : R) (num : nat) : list R :=
  map (fun i => start + INR i * ((stop - start) / INR (num - 1))) (seq 0 num).

Definition zeros_like (a : list R) : list R := map (fun _ => 0) a.

(** Elementwise sum of two arrays of the same shape. *)
Definition add (a b : list R) : list R :=
  map (fun xy => fst xy + snd xy) (combine a b).

(** [a[lo:hi] = v] for a scalar [v]: the slice is clipped to the array. *)
Fixpoint slice_assign_from (i : nat) (a : list R) (lo hi : nat) (v : R) : list R :=
  match a with
  | [] => []
  | x :: a' =>
      (if (lo <=? i)%nat && (i <? hi)%nat then v else x)
        :: slice_assign_from (S i) a' lo hi v
  end.

Definition slice_assign (a : list R) (lo hi : nat) (v : R) : list R :=
  slice_assign_from 0 a lo hi v.

Fixpoint max_from (m : R) (a : list R) : R :=
  match a with
  | [] => m
  | x :: a' => max_from (Rmax m x) a'
  end.

(** [np.max] raises [ValueError] on an empty array. *)
Definition max (a : list R) : result R :=
  match a with
  | [] => Raise ValueError
  | x :: a' => Ok (max_from x a')
  end.

Definition square (a : list R) : list R := map (fun x => x * x) a.

Definition sqrt (a : list R) : list R := map R_sqrt.sqrt a.

(** [np.ones(n) / n] *)
Definition ones_over (n : nat) : list R := repeat (1 / INR n) n.

(** Sum of the pairwise products of two arrays. *)
Definition dot (a v : list R) : R :=
  fold_right Rplus 0 (map (fun xy => fst xy * snd xy) (combine a v)).

(** The [m] samples of [a] from index [k] on. *)
Definition window (a : list R) (k m : nat) : list R := firstn m (skipn k a).

(** [np.convolve(a, v, mode="valid")]: the two arguments are swapped when
    [v] is the longer one, and an empty argument raises. *)
Definition convolve_valid (a v : list R) : result (list R) :=
  match a, v with
  | [], _ | _, [] => Raise ValueError
  | _, _ =>
      let (a, v) := if (length a <? length v)%nat then (v, a) else (a, v) in
      Ok (map (fun k => dot (window a k (length v)) (rev v))
              (seq 0 (length a - length v + 1)))
  end.
End np.

(** ** Simulation helpers (lines 25-35) *)

Definition fs : nat := 20000.

Definition t : list R := np.linspace 0 0.04 fs.

(** The draws of [np.random] one call of [simulate_signal] consumes. *)
Record NoiseDraws : Type := {
  randn : nat -> R;  (* the k-th standard normal draw of [np.random.randn] *)
  rand : R           (* [np.random.rand()], a draw from [0, 1) *)
}.

Definition random_randn (d : NoiseDraws) (n : nat) : list R :=
  map (randn d) (seq 0 n).

Section Simulate.
Local Open Scope R_scope.

Definition base : list R := map (fun x => sin (2 * PI * 50 * x)) t.

Definition noise (d : NoiseDraws) : list R :=
  map (fun z => 0.02 * z) (random_randn d (length t)).

Definition pulse_value (d : NoiseDraws) : R := 8 + rand d * 2.

Definition pulse (d : NoiseDraws) : list R :=
  np.slice_assign (np.zeros_like t) 500 800 (pulse_value d).

Definition simulate_signal (unauth : bool) (d : NoiseDraws) : list R :=
  if unauth then np.add (np.add base (noise d)) (pulse d)
  else np.add base (noise d).
End Simulate.

Arguments fs : simpl never.
Arguments t : simpl never.
Arguments base : simpl never.
Arguments noise : simpl never.
Arguments pulse : simpl never.
Arguments simulate_signal : simpl never.

(** ** Strings the detector builds *)

Section Formatting.
Local Open Scope string_scope.

Definition digit (d : nat) : ascii :=
  match d with
  | 0 => "0" | 1 => "1" | 2 => "2" | 3 => "3" | 4 => "4"
  | 5 => "5" | 6 => "6" | 7 => "7" | 8 => "8" | _ => "9"
  end%char.

(** [%H], [%M], [%S]: two digits, zero padded (the fields of a
    [struct_time] are below 100). *)
Definition two_digits (n : nat) : string :=
  String (digit ((n / 10) mod 10)) (String (digit (n mod 10)) EmptyString).

Record struct_time : Set := { tm_hour : nat; tm_min : nat; tm_sec : nat }.

(** [time.strftime("%H:%M:%S")] at local time [now]. *)
Definition strftime_HMS (now : struct_time) : string :=
  two_digits (tm_hour now) ++ ":" ++ two_digits (tm_min now) ++ ":"
    ++ two_digits (tm_sec now).

Fixpoint decimal (fuel n : nat) : string :=
  match fuel with
  | O => EmptyString
  | S fuel' =>
      (if (n <? 10)%nat then EmptyString else decimal fuel' (n / 10))
        ++ String (digit (n mod 10)) EmptyString
  end.

(** [str(x)] for a float [x = h / 100] with [0 <= h]: the shortest decimal
    that reads back as [x], so at least one and at most two decimals. *)
Definition str_hundredths (h : Z) : string :=
  let n := Z.to_nat h in
  decimal (S n) (n / 100) ++ "."
    ++ String (digit ((n / 10) mod 10))
         (if (n mod 10 =? 0)%nat then EmptyString
          else String (digit (n mod 10)) EmptyString).
End Formatting.

(** Python's [round(x, 2)] rounds the exact value of [x] to the nearest
    hundredth, ties to the even one.  The rounded float is represented by
    its number of hundredths. *)
Definition round_half_even (q : Q) : Z :=
  let f := Qfloor q in
  match Qcompare (q - inject_Z f) (1 # 2) with
  | Lt => f
  | Eq => if Z.even f then f else (f + 1)%Z
  | Gt => (f + 1)%Z
  end.

Definition round2 (x : Q) : Z := round_half_even (x * 100).

Module random.
(** [random.choice(seq)] is [seq[randbelow(len(seq))]]; [r] is the integer
    the generator produces, reduced below the length. *)
Definition choice (r : nat) (seq : list string) : result string :=
  match seq with
  | [] => Raise IndexError
  | _ => Ok (nth (r mod length seq) seq EmptyString)
  end.

(** [random.uniform(a, b)] is [a + (b - a) * random()], with [u] the value
    of [random()], a draw from [0, 1). *)
Definition uniform (u : Q) (a b : Q) : Q := a + (b - a) * u.
End random.

(** ** The detector (lines 16-17 and 37-49) *)

Definition feeders : list string := ["Feeder-1"; "Feeder-2"; "Feeder-3"]%string.
Definition substations : list string := ["Substation-A"; "Substation-B"]%string.

(** A [dict] with string keys and values, in insertion order. *)
Definition dict : Set := list (string * string).

Fixpoint dict_get (k : string) (d : dict) : option string :=
  match d with
  | [] => None
  | (k', v) :: d' => if String.eqb k k' then Some v else dict_get k d'
  end.

Definition Event : Set := dict.

(** What one call of [detect_event] reads from the [random] module and from
    the clock. *)
Record Env : Set := {
  rnd_feeder : nat;      (* consumed by [random.choice(feeders)] *)
  rnd_substation : nat;  (* consumed by [random.choice(substations)] *)
  rnd_location : Q;      (* [random()] inside [random.uniform(0.5, 2.5)] *)
  now : struct_time      (* the clock read by [time.strftime] *)
}.

Definition threshold : R := 3.0%R.

Definition detect_event (signal : list R) (e : Env) : result (option Event) :=
  (m <- np.max signal ;;
   if Rlt_dec threshold m then
     feeder <- random.choice (rnd_feeder e) feeders ;;
     substation <- random.choice (rnd_substation e) substations ;;
     let location_km := round2 (random.uniform (rnd_location e) 0.5 2.5) in
     Ok (Some [ ("time", strftime_HMS (now e));
                ("substation", substation);
                ("feeder", feeder);
                ("location", str_hundredths location_km ++ " km");
                ("status", "Unauthorized Fence") ]%string)
   else Ok None)%result.

(** ** Rolling RMS (lines 115-116) *)

Definition window : nat := 500.

Definition rms_vals (signal : list R) : result (list R) :=
  (avg <- np.convolve_valid (np.square signal) (np.ones_over window) ;;
   Ok (np.sqrt avg))%result.

(** ** The part of pandas the script uses *)

Module pd.
Local Open Scope string_scope.

(** A frame of [object] cells; [None] is a missing value (NaN). *)
Record DataFrame : Set := {
  columns : list string;
  rows : list (list (option string))
}.

Fixpoint union_keys (cols keys : list string) : list string :=
  match keys with
  | [] => cols
  | k :: keys' =>
      union_keys (if existsb (String.eqb k) cols then cols else cols ++ [k]) keys'
  end.

(** [pd.DataFrame(records)] for a list of dicts: the columns are the keys in
    the order in which they first appear, a key a record lacks is NaN. *)
Definition from_records (records : list dict) : DataFrame :=
  let cols := fold_left (fun cols d => union_keys cols (map fst d)) records [] in
  {| columns := cols;
     rows := map (fun d => map (fun c => dict_get c d) cols) records |}.

Definition comma : ascii := ","%char.
Definition newline : ascii := "010"%char.
Definition carriage_return : ascii := "013"%char.
Definition dquote : ascii := "034"%char.

Definition special (c : ascii) : bool :=
  Ascii.eqb c comma || Ascii.eqb c dquote || Ascii.eqb c newline
  || Ascii.eqb c carriage_return.

Fixpoint has_special (s : string) : bool :=
  match s with
  | EmptyString => false
  | String c s' => special c || has_special s'
  end.

Fixpoint double_quotes (s : string) : string :=
  match s with
  | EmptyString => EmptyString
  | String c s' =>
      if Ascii.eqb c dquote then String dquote (String dquote (double_quotes s'))
      else String c (double_quotes s')
  end.

(** Minimal quoting: a field is quoted only when it holds a separator, a
    quote or a line break. *)
Definition csv_field (s : string) : string :=
  if has_special s then String dquote (double_quotes s ++ String dquote EmptyString)
  else s.

Definition csv_line (fields : list string) : string :=
  String.concat (String comma EmptyString) (map csv_field fields)
    ++ String newline EmptyString.

(** A missing value is written as the empty field. *)
Definition cell_text (c : option string) : string :=
  match c with
  | Some s => s
  | None => EmptyString
  end.

(** [df.to_csv(index=False)]: the header line, then one line per row, each
    ended by a line feed. *)
Definition to_csv (df : DataFrame) : string :=
  csv_line (columns df)
    ++ String.concat EmptyString (map (fun r => csv_line (map cell_text r)) (rows df)).
End pd.

(** ** [str.encode('utf-8')]

    The characters of a [string] are read as the code points below 256. *)

Definition utf8_encode_char (c : ascii) : list byte :=
  let n := nat_of_ascii c in
  if n <? 128 then [byte_of_ascii c]
  else [byte_of_ascii (ascii_of_nat (192 + n / 64));
        byte_of_ascii (ascii_of_nat (128 + n mod 64))].

Fixpoint utf8_encode (s : string) : list byte :=
  match s with
  | EmptyString => []
  | String c s' => utf8_encode_char c ++ utf8_encode s'
  end.

(** ** The script, one refresh at a time *)

Record Controls : Set := {
  unauth : bool;
  show_fft : bool;
  show_psd : bool;
  show_rms : bool;
  show_heatmap : bool;
  send_sms : bool;
  sound_alarm : bool
}.

(** Everything one run of the script reads from outside. *)
Record Refresh : Type := {
  controls : Controls;
  draws : NoiseDraws;
  env : Env
}.

(** [st.session_state], of which the script uses the key ["events"] only:
    [None] when the key is absent. *)
Definition session_state : Set := option (list Event).

Definition events_of (st : session_state) : list Event :=
  match st with
  | Some log => log
  | None => []
  end.

Inductive alert : Set :=
| StError (substation feeder location : string)
| StInfoSms
| StWarningSiren
| StSuccess.

(** What a run shows, as far as it depends on the signal and on the log. *)
Record Page : Type := {
  rms_plot : option (list R);
  alerts : list alert;
  event_table : option pd.DataFrame;
  download : option (list byte)
}.

(** [event[key]] *)
Definition dict_item (d : dict) (k : string) : result string :=
  match dict_get k d with
  | Some v => Ok v
  | None => Raise KeyError
  end.

(** Truth value of what [detect_event] returned: [None] and the empty dict
    are false. *)
Definition truthy (event : option Event) : bool :=
  match event with
  | Some (_ :: _) => true
  | _ => false
  end.

(** Lines 126-134. *)
Definition detection_and_alerts (c : Controls) (event : option Event)
    (log : list Event) : result (list Event * list alert) :=
  match event with
  | Some ev =>
      if truthy event then
        (substation <- dict_item ev "substation" ;;
         feeder <- dict_item ev "feeder" ;;
         location <- dict_item ev "location" ;;
         Ok (ev :: log,
             [StError substation feeder location]
               ++ (if send_sms c then [StInfoSms] else [])
               ++ (if sound_alarm c then [StWarningSiren] else [])))%result
      else Ok (log, [StSuccess])
  | None => Ok (log, [StSuccess])
  end.

(** Lines 149 and 160. *)
Definition export_csv (log : list Event) : list byte :=
  utf8_encode (pd.to_csv (pd.from_records log)).

Definition run_script (st : session_state) (r : Refresh)
  : result (session_state * Page) :=
  let c := controls r in
  let log := events_of st in
  let signal := simulate_signal (unauth c) (draws r) in
  (event <- detect_event signal (env r) ;;
   rms <- (if show_rms c then (v <- rms_vals signal ;; Ok (Some v)) else Ok None) ;;
   la <- detection_and_alerts c event log ;;
   let log' := fst la in
   Ok (Some log',
       {| rms_plot := rms;
          alerts := snd la;
          event_table :=
            if 0 <? length log' then Some (pd.from_records log') else None;
          download :=
            if 0 <? length log' then Some (export_csv log') else None |}))%result.

(** A session: the runs of the script one after the other, the session state
    handed from each to the next. *)
Fixpoint run_session (st : session_state) (rs : list Refresh)
  : result session_state :=
  match rs with
  | [] => Ok st
  | r :: rs' => (sp <- run_script st r ;; run_session (fst sp) rs')%result
  end.
(** ** Notions and inputs the statements use *)

Section Reference.
Local Open Scope R_scope.

(** The mathematical maximum of a sample sequence. *)
Definition is_maximum (m : R) (a : list R) : Prop :=
  In m a /\ forall x, In x a -> x <= m.

Definition midnight : struct_time := {| tm_hour := 0; tm_min := 0; tm_sec := 0 |}.

Definition env0 : Env :=
  {| rnd_feeder := 0; rnd_substation := 0; rnd_location := 1 # 2; now := midnight |}.

(** No noise at all, and the smallest pulse. *)
Definition calm : NoiseDraws := {| randn := fun _ => 0; rand := 0 |}.

(** The record of lines 42-48, as built from the draws and the clock of
    [e]. *)
Definition event_record (e : Env) : Event :=
  [ ("time", strftime_HMS (now e));
    ("substation", nth (rnd_substation e mod 2) substations EmptyString);
    ("feeder", nth (rnd_feeder e mod 3) feeders EmptyString);
    ("location",
     str_hundredths (round2 (random.uniform (rnd_location e) 0.5 2.5)) ++ " km");
    ("status", "Unauthorized Fence") ]%string.

(** The draws [np.random] can hand out: [rand()] lies in [[0, 1)], and a
    draw of [randn] is a float64 of the polar method, of magnitude below 13;
    the generous bound 100 is all that is used. *)
Definition generator_range (d : NoiseDraws) : Prop :=
  0 <= rand d < 1 /\ forall i, Rabs (randn d i) <= 100.
End Reference.

(** The mean of the squares of the [w] samples of [a] from index [k] on. *)
Definition mean_square (a : list R) (k w : nat) : R :=
  (fold_right Rplus 0 (map (fun x => x * x) (np.window a k w)) / INR w)%R.

Definition all_off : Controls :=
  {| unauth := false; show_fft := false; show_psd := false; show_rms := false;
     show_heatmap := false; send_sms := false; sound_alarm := false |}.

(** A refresh with every box unticked and no noise. *)
Definition quiet_refresh : Refresh :=
  {| controls := all_off; draws := calm; env := env0 |}.

(** The refreshes of a session that detect something, oldest first. *)

Definition signal_of (r : Refresh) : list R :=
  simulate_signal (unauth (controls r)) (draws r).

Definition detected (r : Refresh) : option Event :=
  match detect_event (signal_of r) (env r) with
  | Ok (Some ev) => Some ev
  | _ => None
  end.

Fixpoint detections (rs : list Refresh) : list Event :=
  match rs with
  | [] => []
  | r :: rs' =>
      match detected r with
      | Some ev => ev :: detections rs'
      | None => detections rs'
      end
  end.

(** An event record is one the detector returned. *)
Definition detector_event (ev : Event) : Prop :=
  exists signal e, detect_event signal e = Ok (Some ev).

(** ** Reading an export back *)

Section Reading.
Local Open Scope string_scope.

(** UTF-8 decoding, for the code points below 256. *)
Fixpoint utf8_decode (bs : list byte) : option string :=
  match bs with
  | [] => Some EmptyString
  | b :: bs' =>
      let n := Byte.to_nat b in
      if (n <? 128)%nat then option_map (String (ascii_of_byte b)) (utf8_decode bs')
      else if ((194 <=? n) && (n <=? 195))%nat then
        match bs' with
        | b2 :: bs'' =>
            let n2 := Byte.to_nat b2 in
            if ((128 <=? n2) && (n2 <? 192))%nat then
              option_map (String (ascii_of_nat ((n - 192) * 64 + (n2 - 128))))
                         (utf8_decode bs'')
            else None
        | [] => None
        end
      else None
  end.

(** A CSV reader with the usual quoting: a quoted field may hold commas and
    line breaks, and a doubled quote inside it is one quote. *)
Inductive csv_state : Set :=
| Unquoted       (* outside quotes *)
| Quoted         (* inside a quoted field *)
| QuoteInQuoted. (* after a quote met inside a quoted field *)

(** The field being read, the fields of the row before it in reading order
    after it, and the rows that follow. *)
Definition csv_parsed : Set := string * list string * list (list string).

Definition push_char (c : ascii) (p : csv_parsed) : csv_parsed :=
  let '(f, r, rs) := p in (String c f, r, rs).

Definition end_field (p : csv_parsed) : csv_parsed :=
  let '(f, r, rs) := p in (EmptyString, f :: r, rs).

Definition end_row (p : csv_parsed) : csv_parsed :=
  let '(f, r, rs) := p in (EmptyString, [], (f :: r) :: rs).

Fixpoint csv_parse (st : csv_state) (s : string) : csv_parsed :=
  match s with
  | EmptyString => (EmptyString, [], [])
  | String c s' =>
      match st with
      | Quoted =>
          if Ascii.eqb c pd.dquote then csv_parse QuoteInQuoted s'
          else push_char c (csv_parse Quoted s')
      | QuoteInQuoted =>
          if Ascii.eqb c pd.dquote then push_char c (csv_parse Quoted s')
          else if Ascii.eqb c pd.comma then end_field (csv_parse Unquoted s')
          else if Ascii.eqb c pd.newline then end_row (csv_parse Unquoted s')
          else push_char c (csv_parse Unquoted s')
      | Unquoted =>
          if Ascii.eqb c pd.dquote then csv_parse Quoted s'
          else if Ascii.eqb c pd.comma then end_field (csv_parse Unquoted s')
          else if Ascii.eqb c pd.newline then end_row (csv_parse Unquoted s')
          else push_char c (csv_parse Unquoted s')
      end
  end.

Definition csv_rows (s : string) : list (list string) :=
  let '(f, r, rs) := csv_parse Unquoted s in (f :: r) :: rs.

Definition blank_line (row : list string) : bool :=
  match row with
  | [EmptyString] => true
  | _ => false
  end.

(** The header and the data rows of a CSV text; blank lines are skipped and
    a text without any line has no table. *)
Definition read_csv (s : string) : option (list string * list (list string)) :=
  match filter (fun row => negb (blank_line row)) (csv_rows s) with
  | [] => None
  | header :: data => Some (header, data)
  end.

Definition csv_header : list string :=
  ["time"; "substation"; "feeder"; "location"; "status"].

(** ** Reading a location back *)

Definition is_digit (c : ascii) : bool :=
  let n := nat_of_ascii c in ((48 <=? n) && (n <=? 57))%nat.

Fixpoint all_digits (s : string) : bool :=
  match s with
  | EmptyString => true
  | String c s' => is_digit c && all_digits s'
  end.

Fixpoint digits_value (acc : nat) (s : string) : nat :=
  match s with
  | EmptyString => acc
  | String c s' => digits_value (10 * acc + (nat_of_ascii c - 48)) s'
  end.

Fixpoint split_on (sep : ascii) (s : string) : string * list string :=
  match s with
  | EmptyString => (EmptyString, [])
  | String c s' =>
      let '(f, fs') := split_on sep s' in
      if Ascii.eqb c sep then (EmptyString, f :: fs') else (String c f, fs')
  end.

(** The text before a final [" km"]. *)
Fixpoint strip_km (s : string) : option string :=
  match s with
  | EmptyString => None
  | String c s' =>
      if String.eqb s " km" then Some EmptyString
      else option_map (String c) (strip_km s')
  end.

(** A decimal numeral [digits.digits], read as the pair of the number its
    digits spell and the count of its decimals. *)
Definition read_decimal (s : string) : option (nat * nat) :=
  match split_on "." s with
  | (ip, [fp]) =>
      if negb (String.eqb ip EmptyString) && all_digits ip
         && negb (String.eqb fp EmptyString) && all_digits fp
      then Some (digits_value 0 (ip ++ fp), String.length fp)
      else None
  | _ => None
  end.

Definition read_km (s : string) : option (nat * nat) :=
  match strip_km s with
  | Some numeral => read_decimal numeral
  | None => None
  end.

Definition decimal_value (p : nat * nat) : Q :=
  Z.of_nat (fst p) # Pos.of_nat (10 ^ snd p).

(** ["<number with exactly two decimals> km"] *)
Definition two_decimal_km (s : string) : bool :=
  match read_km s with
  | Some (_, 2) => true
  | _ => false
  end.

(** ["<number with one or two decimals> km"], the number being [h / 100]. *)
Definition reads_as_hundredths (h : Z) (s : string) : bool :=
  match read_km s with
  | Some (n, k) =>
      ((k =? 1) || (k =? 2))%nat && Qeq_bool (decimal_value (n, k)) (h # 100)
  | None => false
  end.

(** ["<number with one or two decimals> km"] with the number in
    [[0.5, 2.5]]. *)
Definition location_in_range (s : string) : bool :=
  match read_km s with
  | Some (n, k) =>
      ((k =? 1) || (k =? 2))%nat
      && Qle_bool (1 # 2) (decimal_value (n, k))
      && Qle_bool (decimal_value (n, k)) (5 # 2)
  | None => false
  end.

(** The record the detector returns at midnight on the draws of [env0]. *)
Definition sample_event : Event :=
  [ ("time", "00:00:00"); ("substation", "Substation-A"); ("feeder", "Feeder-1");
    ("location", "1.5 km"); ("status", "Unauthorized Fence") ].
End Reading.

(** ** The frequency axis and the spectrum (lines 87-88) *)

Module fft.
Local Open Scope R_scope.

(** Sum of [f n] over [n < N]. *)
Definition sum_upto (N : nat) (f : nat -> R) : R :=
  fold_right Rplus 0 (map f (seq 0 N)).

(** Real and imaginary part of bin [k] of the discrete Fourier transform,
    [sum_n x[n] * exp(-2 pi i k n / N)]. *)
Definition dft_re (x : list R) (k : nat) : R :=
  sum_upto (length x)
    (fun n => nth n x 0 * cos (2 * PI * INR k * INR n / INR (length x))).

Definition dft_im (x : list R) (k : nat) : R :=
  sum_upto (length x)
    (fun n => - (nth n x 0 * sin (2 * PI * INR k * INR n / INR (length x)))).

(** [np.fft.fft(x)], a complex array as pairs. *)
Definition fft (x : list R) : list (R * R) :=
  map (fun k => (dft_re x k, dft_im x k)) (seq 0 (length x)).

(** [np.abs] of a complex array. *)
Definition abs (z : list (R * R)) : list R :=
  map (fun c => sqrt (fst c * fst c + snd c * snd c)) z.

(** [np.fft.fftfreq(n, d)]: the bins [0 .. (n-1)//2] then the negative ones,
    in units of [1 / (n * d)]; [None] is the division by zero of [n * d = 0]. *)
Definition fftfreq (n : nat) (d : R) : option (list R) :=
  if Req_dec_T (INR n * d) 0 then None
  else Some (map (fun k => (if (k <? (n - 1) / 2 + 1)%nat then INR k
                            else INR k - INR n) * (1 / (INR n * d)))
                 (seq 0 n)).
End fft.


(** Line 88. *)
Definition freqs (signal : list R) : option (list R) :=
  option_map (firstn (fs / 2)) (fft.fftfreq (length signal) (1 / INR fs)).

(** ** The map point (lines 140-141)

    [u_lat] and [u_lon] are the two values of [random.random()].  The sums
    are exact; rounded to float64 they can reach the upper end of the box. *)

Definition map_point (u_lat u_lon : Q) : Q * Q :=
  (8.5 + u_lat * 0.3, 76.9 + u_lon * 0.3)%Q.

(** ** Event history and feeder counts (lines 147-163) *)

Module series.
(** How often [v] occurs. *)
Fixpoint count (v : string) (l : list string) : nat :=
  match l with
  | [] => 0
  | x :: l' => (if String.eqb v x then 1 else 0) + count v l'
  end.

(** The distinct values, in the order in which they first appear. *)
Fixpoint unique (l : list string) : list string :=
  match l with
  | [] => []
  | x :: l' => x :: filter (fun y => negb (String.eqb x y)) (unique l')
  end.

(** Insertion by decreasing count, before the entries that count as much, so
    that sorting keeps values of equal count in the order of first
    appearance. *)
Fixpoint insert (p : string * nat) (l : list (string * nat)) : list (string * nat) :=
  match l with
  | [] => [p]
  | q :: l' => if snd q <=? snd p then p :: q :: l' else q :: insert p l'
  end.

Definition sort_desc (l : list (string * nat)) : list (string * nat) :=
  fold_right insert [] l.

Fixpoint dropna (col : list (option string)) : list string :=
  match col with
  | [] => []
  | Some v :: col' => v :: dropna col'
  | None :: col' => dropna col'
  end.

(** [Series.value_counts()]: missing values are dropped, each distinct value
    is counted, the largest count comes first. *)
Definition value_counts (col : list (option string)) : list (string * nat) :=
  let vals := dropna col in
  sort_desc (map (fun v => (v, count v vals)) (unique vals)).
End series.

Fixpoint index_of (name : string) (cols : list string) : option nat :=
  match cols with
  | [] => None
  | c :: cols' =>
      if String.eqb name c then Some 0
      else option_map S (index_of name cols')
  end.

(** [df[name]]: the column, or [KeyError]. *)
Definition df_column (df : pd.DataFrame) (name : string)
  : result (list (option string)) :=
  match index_of name (pd.columns df) with
  | Some i => Ok (map (fun row => nth i row None) (pd.rows df))
  | None => Raise KeyError
  end.

(** What lines 147-163 show. *)
Inductive history : Set :=
| NoEventsYet
| History (table : pd.DataFrame) (feeder_counts : option (list (string * nat)))
          (csv : list byte).

Definition event_history (c : Controls) (log : list Event) : result history :=
  if 0 <? length log then
    let df_events := pd.from_records log in
    (bars <- (if show_heatmap c
              then (col <- df_column df_events "feeder" ;;
                    Ok (Some (series.value_counts col)))
              else Ok None) ;;
     Ok (History df_events bars (utf8_encode (pd.to_csv df_events))))%result
  else Ok NoEventsYet.

(** ** Reading a time stamp back *)

Definition read_two_digits (s : string) : option nat :=
  if (String.length s =? 2) && all_digits s then Some (digits_value 0 s) else None.

Definition read_HMS (s : string) : option struct_time :=
  match split_on ":" s with
  | (h, [m; sec]) =>
      match read_two_digits h, read_two_digits m, read_two_digits sec with
      | Some h', Some m', Some s' =>
          Some {| tm_hour := h'; tm_min := m'; tm_sec := s' |}
      | _, _, _ => None
      end
  | _ => None
  end.

(** A text without carriage return. *)
Fixpoint no_carriage_return (s : string) : bool :=
  match s with
  | EmptyString => true
  | String c s' => negb (Ascii.eqb c pd.carriage_return) && no_carriage_return s'
  end.

(** A text whose characters are all below 128. *)
Fixpoint all_ascii (s : string) : bool :=
  match s with
  | EmptyString => true
  | String c s' => (nat_of_ascii c <? 128) && all_ascii s'
  end.

Definition sum_counts (bars : list (string * nat)) : nat :=
  fold_right Nat.add 0 (map snd bars).

(** A refresh with the pulse box ticked, no noise. *)
Definition pulse_refresh : Refresh :=
  {| controls :=
       {| unauth := true; show_fft := true; show_psd := true; show_rms := true;
          show_heatmap := true; send_sms := true; sound_alarm := true |};
     draws := calm; env := env0 |}.
(** * Properties of the signal generator *)

Section ArrayFacts.
Local Open Scope R_scope.

Lemma fs_value : fs = (20 * 1000)%nat.
Proof. reflexivity. Qed.

Lemma length_add (a b : list R) :
  length a = length b -> length (np.add a b) = length a.
Proof.
  intros Hab. unfold np.add.
  rewrite length_map, length_combine, <- Hab. apply Nat.min_id.
Qed.

Lemma nth_add (a b : list R) (i : nat) :
  length a = length b -> (i < length a)%nat ->
  nth i (np.add a b) 0 = nth i a 0 + nth i b 0.
Proof.
  unfold np.add. revert b i.
  induction a as [|x a IH]; intros [|y b] i Hab Hi; simpl in *; try lia.
  destruct i as [|i]; [reflexivity|]. apply IH; lia.
Qed.

Lemma length_slice_assign_from (a : list R) (lo hi : nat) (v : R) :
  forall i, length (np.slice_assign_from i a lo hi v) = length a.
Proof. induction a as [|x a IH]; intros i; simpl; [|rewrite IH]; reflexivity. Qed.

Lemma nth_slice_assign_from (a : list R) (lo hi : nat) (v : R) :
  forall i k, (k < length a)%nat ->
    nth k (np.slice_assign_from i a lo hi v) 0 =
    if ((lo <=? i + k) && (i + k <? hi))%nat then v else nth k a 0.
Proof.
  induction a as [|x a IH]; intros i k Hk; simpl in Hk; [lia|].
  destruct k as [|k]; simpl.
  - rewrite Nat.add_0_r. reflexivity.
  - rewrite IH by lia. replace (S i + k)%nat with (i + S k)%nat by lia.
    reflexivity.
Qed.

Lemma nth_zeros_like (a : list R) (k : nat) : nth k (np.zeros_like a) 0 = 0.
Proof.
  unfold np.zeros_like. revert k.
  induction a as [|x a IH]; intros [|k]; simpl; auto.
Qed.
End ArrayFacts.

Section SignalFacts.
Local Open Scope R_scope.
Variable d : NoiseDraws.

Lemma length_t : length t = fs.
Proof. unfold t, np.linspace. rewrite length_map, length_seq. reflexivity. Qed.

Lemma length_base : length base = fs.
Proof. unfold base. rewrite length_map. apply length_t. Qed.

Lemma length_noise : length (noise d) = fs.
Proof.
  unfold noise, random_randn. rewrite !length_map, length_seq. apply length_t.
Qed.

Lemma length_pulse : length (pulse d) = fs.
Proof.
  unfold pulse, np.slice_assign. rewrite length_slice_assign_from.
  unfold np.zeros_like. rewrite length_map. apply length_t.
Qed.

Lemma length_base_noise : length (np.add base (noise d)) = fs.
Proof. rewrite length_add; rewrite length_base; [|rewrite length_noise]; reflexivity. Qed.

Lemma simulate_signal_length (unauth : bool) :
  length (simulate_signal unauth d) = fs.
Proof.
  unfold simulate_signal. destruct unauth.
  - rewrite length_add; rewrite length_base_noise; [|rewrite length_pulse];
      reflexivity.
  - apply length_base_noise.
Qed.

(** The samples of the three arrays. *)
Lemma nth_t (i : nat) :
  (i < fs)%nat -> nth i t 0 = 0 + INR i * ((0.04 - 0) / INR (fs - 1)).
Proof.
  intros Hi. unfold t, np.linspace.
  set (f := fun i : nat => 0 + INR i * ((0.04 - 0) / INR (fs - 1))).
  rewrite (nth_indep _ 0 (f 0%nat)) by (rewrite length_map, length_seq; exact Hi).
  rewrite map_nth, seq_nth by exact Hi. reflexivity.
Qed.

Lemma nth_base (i : nat) :
  (i < fs)%nat -> nth i base 0 = sin (2 * PI * 50 * nth i t 0).
Proof.
  intros Hi. unfold base.
  rewrite (nth_indep _ 0 (sin (2 * PI * 50 * 0))) by (rewrite length_map, length_t; exact Hi).
  rewrite (map_nth (fun x => sin (2 * PI * 50 * x))). reflexivity.
Qed.

Lemma nth_noise (i : nat) :
  (i < fs)%nat -> nth i (noise d) 0 = 0.02 * randn d i.
Proof.
  intros Hi. unfold noise, random_randn. rewrite length_t.
  rewrite (nth_indep _ 0 (0.02 * randn d 0)) by (rewrite !length_map, length_seq; exact Hi).
  rewrite (map_nth (fun z => 0.02 * z)).
  rewrite (map_nth (randn d)), seq_nth by exact Hi. reflexivity.
Qed.

Lemma nth_pulse (i : nat) :
  (i < fs)%nat ->
  nth i (pulse d) 0 =
  if ((500 <=? i) && (i <? 800))%nat then pulse_value d else 0.
Proof.
  intros Hi. unfold pulse, np.slice_assign.
  rewrite nth_slice_assign_from
    by (unfold np.zeros_like; rewrite length_map, length_t; exact Hi).
  rewrite nth_zeros_like. reflexivity.
Qed.

Lemma nth_signal_unauth (i : nat) :
  (i < fs)%nat ->
  nth i (simulate_signal true d) 0 =
  nth i base 0 + nth i (noise d) 0 +
  (if ((500 <=? i) && (i <? 800))%nat then pulse_value d else 0).
Proof.
  intros Hi. unfold simulate_signal.
  rewrite nth_add;
    [ | rewrite length_base_noise, length_pulse; reflexivity
      | rewrite length_base_noise; exact Hi ].
  rewrite nth_add;
    [ | rewrite length_base, length_noise; reflexivity
      | rewrite length_base; exact Hi ].
  rewrite nth_pulse by exact Hi. reflexivity.
Qed.

Lemma nth_signal_normal (i : nat) :
  (i < fs)%nat ->
  nth i (simulate_signal false d) 0 = nth i base 0 + nth i (noise d) 0.
Proof.
  intros Hi. unfold simulate_signal.
  rewrite nth_add;
    [ reflexivity
    | rewrite length_base, length_noise; reflexivity
    | rewrite length_base; exact Hi ].
Qed.

Lemma base_bound (i : nat) : (i < fs)%nat -> -1 <= nth i base 0 <= 1.
Proof. intros Hi. rewrite nth_base by exact Hi. apply SIN_bound. Qed.
End SignalFacts.

(** * Properties of [np.max] and of the detector *)

Section MaxFacts.
Local Open Scope R_scope.


Lemma max_from_init (a : list R) : forall m, m <= np.max_from m a.
Proof.
  induction a as [|x a IH]; intros m; simpl; [lra|].
  eapply Rle_trans; [apply (Rmax_l m x)|apply IH].
Qed.

Lemma max_from_upper (a : list R) :
  forall m x, In x a -> x <= np.max_from m a.
Proof.
  induction a as [|y a IH]; intros m x Hx; simpl in *; [contradiction|].
  destruct Hx as [->|Hx]; [|apply IH; exact Hx].
  eapply Rle_trans; [apply (Rmax_r m x)|apply max_from_init].
Qed.

Lemma max_from_attained (a : list R) :
  forall m, np.max_from m a = m \/ In (np.max_from m a) a.
Proof.
  induction a as [|y a IH]; intros m; simpl; [left; reflexivity|].
  destruct (IH (Rmax m y)) as [H|H]; [|right; right; exact H].
  rewrite H. unfold Rmax. destruct (Rle_dec m y); [right; left|left]; reflexivity.
Qed.

Lemma is_maximum_unique (a : list R) (m m' : R) :
  is_maximum m a -> is_maximum m' a -> m = m'.
Proof.
  intros [Hin Hup] [Hin' Hup']. apply Rle_antisym; auto.
Qed.

Lemma np_max_is_maximum (a : list R) (m : R) :
  np.max a = Ok m -> is_maximum m a.
Proof.
  destruct a as [|x a]; simpl; [discriminate|].
  intros [= <-]. split.
  - destruct (max_from_attained a x) as [->|H]; [left; reflexivity|right; exact H].
  - intros y [<-|Hy]; [apply max_from_init|apply max_from_upper; exact Hy].
Qed.

Lemma is_maximum_np_max (a : list R) (m : R) :
  is_maximum m a -> np.max a = Ok m.
Proof.
  intros Hm. destruct a as [|x a]; [destruct Hm as [[] _]|].
  simpl. f_equal. apply (is_maximum_unique (x :: a)); [|exact Hm].
  apply np_max_is_maximum. reflexivity.
Qed.

Lemma np_max_nonempty (a : list R) :
  (0 < length a)%nat -> exists m, np.max a = Ok m.
Proof. destruct a; simpl; [lia|eauto]. Qed.

Lemma np_max_le (a : list R) (m b : R) :
  np.max a = Ok m -> (forall x, In x a -> x <= b) -> m <= b.
Proof. intros Hm Hb. apply Hb, (np_max_is_maximum a m Hm). Qed.

Lemma np_max_nth (a : list R) (m : R) (i : nat) :
  np.max a = Ok m -> (i < length a)%nat -> nth i a 0 <= m.
Proof. intros Hm Hi. apply (np_max_is_maximum a m Hm), nth_In, Hi. Qed.
End MaxFacts.

Section DetectorFacts.
Local Open Scope R_scope.

Lemma detect_event_above (signal : list R) (e : Env) (m : R) :
  np.max signal = Ok m -> 3 < m ->
  exists ev, detect_event signal e = Ok (Some ev).
Proof.
  intros Hm H3. unfold detect_event. rewrite Hm. cbn [bind].
  destruct (Rlt_dec threshold m) as [_|n]; [cbn [bind random.choice feeders substations]; eauto|].
  exfalso; apply n; unfold threshold; lra.
Qed.

Lemma detect_event_below (signal : list R) (e : Env) (m : R) :
  np.max signal = Ok m -> m <= 3 -> detect_event signal e = Ok None.
Proof.
  intros Hm H3. unfold detect_event. rewrite Hm. cbn [bind].
  destruct (Rlt_dec threshold m) as [l|_]; [|reflexivity].
  exfalso; unfold threshold in l; lra.
Qed.

Lemma detect_event_some (signal : list R) (e : Env) (ev : Event) :
  detect_event signal e = Ok (Some ev) ->
  exists m, np.max signal = Ok m /\ 3 < m.
Proof.
  unfold detect_event. destruct (np.max signal) as [m|x]; cbn [bind]; [|discriminate].
  destruct (Rlt_dec threshold m) as [l|_]; [|discriminate].
  intros _. exists m. split; [reflexivity|]. unfold threshold in l; lra.
Qed.

Lemma detect_event_none (signal : list R) (e : Env) :
  detect_event signal e = Ok None ->
  exists m, np.max signal = Ok m /\ m <= 3.
Proof.
  unfold detect_event. destruct (np.max signal) as [m|x]; cbn [bind]; [|discriminate].
  destruct (Rlt_dec threshold m) as [_|n]; [discriminate|].
  intros _. exists m. split; [reflexivity|]. unfold threshold in n; lra.
Qed.

Lemma detect_event_above_record (signal : list R) (e : Env) (m : R) :
  np.max signal = Ok m -> 3 < m ->
  detect_event signal e = Ok (Some (event_record e)).
Proof.
  intros Hm H3. unfold detect_event. rewrite Hm. cbn [bind].
  destruct (Rlt_dec threshold m) as [_|n]; [reflexivity|].
  exfalso; apply n; unfold threshold; lra.
Qed.

Lemma detect_event_some_record (signal : list R) (e : Env) (ev : Event) :
  detect_event signal e = Ok (Some ev) -> ev = event_record e.
Proof.
  unfold detect_event. destruct (np.max signal) as [m|x]; cbn [bind]; [|discriminate].
  destruct (Rlt_dec threshold m) as [_|_]; [|discriminate].
  cbn [bind random.choice feeders substations length].
  intros [= <-]. reflexivity.
Qed.

(** C1. On a signal with maximum [m] the detector returns the event record
    when [m > 3.0] and [None] when [m <= 3.0]; a record is returned only
    when [m > 3.0].  The record is the dict of lines 42-48: it has the five
    keys [time, substation, feeder, location, status], counts as true at
    line 126, and whatever the detector returns is that dict. *)
Theorem detect_event_threshold (signal : list R) (e : Env) (m : R) :
  is_maximum m signal ->
  (3 < m ->
   detect_event signal e = Ok (Some (event_record e)) /\
   map fst (event_record e) = csv_header /\
   truthy (Some (event_record e)) = true) /\
  (m <= 3 -> detect_event signal e = Ok None) /\
  (forall ev, detect_event signal e = Ok (Some ev) ->
              3 < m /\ ev = event_record e).
Proof.
  intros Hmax. pose proof (is_maximum_np_max signal m Hmax) as Hm.
  split; [|split].
  - intros H3. split; [|split; reflexivity].
    apply (detect_event_above_record signal e m Hm H3).
  - apply detect_event_below; exact Hm.
  - intros ev Hev. split; [|apply (detect_event_some_record signal e ev Hev)].
    destruct (detect_event_some signal e ev Hev) as (m' & Hm' & H3).
    rewrite Hm in Hm'. injection Hm' as <-. exact H3.
Qed.
End DetectorFacts.

(** * The generator and the detector together *)

Section Pipeline.
Local Open Scope R_scope.

Lemma fs_pos : (0 < fs)%nat.
Proof. rewrite fs_value. lia. Qed.

Lemma simulate_signal_max (unauth : bool) (d : NoiseDraws) :
  exists m, np.max (simulate_signal unauth d) = Ok m.
Proof.
  apply np_max_nonempty. rewrite simulate_signal_length. exact fs_pos.
Qed.

Lemma In_signal (unauth : bool) (d : NoiseDraws) (x : R) :
  In x (simulate_signal unauth d) ->
  exists i, (i < fs)%nat /\ nth i (simulate_signal unauth d) 0 = x.
Proof.
  intros Hx. destruct (In_nth _ _ 0 Hx) as (i & Hi & Hnth).
  rewrite simulate_signal_length in Hi. eauto.
Qed.

(** C3 (what the code does). Both branches return [fs = 20000] samples,
    the number handed to [np.linspace]; the 40 ms window at the sampling
    frequency [fs] would hold [0.04 * 20000 = 800]. *)
Theorem simulate_signal_length_is_fs (unauth : bool) (d : NoiseDraws) :
  length (simulate_signal unauth d) = fs /\
  Z.of_nat (length (simulate_signal unauth d)) = 20000%Z /\
  ~ (inject_Z (Z.of_nat (length (simulate_signal unauth d)))
     == 0.04 * inject_Z (Z.of_nat fs))%Q.
Proof.
  rewrite simulate_signal_length.
  split; [reflexivity|]. split; [reflexivity|].
  vm_compute. discriminate.
Qed.

(** C4 (amended). With [unauth] set there is one pulse value
    [p = 8 + 2 * rand] per refresh: the signal is [base + noise + p] at
    the indices [500 <= i < 800] and [base + noise] at every other index. *)
Theorem pulse_is_additive_on_slice (d : NoiseDraws) (i : nat) :
  (i < fs)%nat ->
  pulse_value d = 8 + rand d * 2 /\
  ((500 <= i < 800)%nat ->
     nth i (simulate_signal true d) 0
     = nth i base 0 + nth i (noise d) 0 + pulse_value d) /\
  (~ (500 <= i < 800)%nat ->
     nth i (simulate_signal true d) 0 = nth i base 0 + nth i (noise d) 0).
Proof.
  intros Hi. split; [reflexivity|].
  rewrite (nth_signal_unauth d i Hi).
  destruct (Nat.leb_spec 500 i) as [Hlo|Hlo];
    destruct (Nat.ltb_spec i 800) as [Hhi|Hhi]; cbn [andb];
    (split; intros H; [try lia; try reflexivity | try lia; try lra]).
Qed.

Lemma pulse_is_additive_on_slice_witness :
  (600 < fs)%nat /\
  nth 600 (simulate_signal true calm) 0
  = nth 600 base 0 + nth 600 (noise calm) 0 + pulse_value calm.
Proof.
  assert (H : (600 < fs)%nat) by (rewrite fs_value; lia).
  split; [exact H|].
  apply (pulse_is_additive_on_slice calm 600 H). lia.
Defined.

(** C4 (as stated, with index 800 in the range): sample 800 carries no
    pulse. *)
Lemma index_800_has_no_pulse :
  (800 < fs)%nat /\
  nth 800 (simulate_signal true calm) 0
  <> nth 800 base 0 + nth 800 (noise calm) 0 + pulse_value calm.
Proof.
  assert (H : (800 < fs)%nat) by (rewrite fs_value; lia).
  split; [exact H|].
  rewrite (nth_signal_unauth calm 800 H).
  change ((500 <=? 800)%nat && (800 <? 800)%nat) with false. cbv iota.
  unfold pulse_value, calm; cbn [rand]. lra.
Qed.

Lemma pulse_sample_above_threshold (d : NoiseDraws) (i : nat) :
  0 <= rand d -> (500 <= i < 800)%nat -> -200 < randn d i ->
  exists m, np.max (simulate_signal true d) = Ok m /\ 3 < m.
Proof.
  intros Hu Hi Hz.
  assert (Hfs : (i < fs)%nat) by (rewrite fs_value; lia).
  destruct (simulate_signal_max true d) as [m Hm].
  exists m. split; [exact Hm|].
  assert (Hle : nth i (simulate_signal true d) 0 <= m).
  { apply np_max_nth; [exact Hm|rewrite simulate_signal_length; exact Hfs]. }
  rewrite (nth_signal_unauth d i Hfs), (nth_noise d i Hfs) in Hle.
  replace ((500 <=? i)%nat && (i <? 800)%nat) with true in Hle
    by (symmetry; apply andb_true_iff; split;
        [apply Nat.leb_le|apply Nat.ltb_lt]; lia).
  pose proof (base_bound i Hfs) as Hb. unfold pulse_value in Hle. lra.
Qed.

(** C2. With [unauth] set, detection triggers whatever the draws the
    generator hands out ([generator_range]): the maximum of the signal
    exceeds 3.0 and the detector returns the event record, a dict that
    counts as true. *)
Theorem unauth_always_triggers (d : NoiseDraws) (e : Env) :
  generator_range d ->
  exists m,
    np.max (simulate_signal true d) = Ok m /\ 3 < m /\
    detect_event (simulate_signal true d) e = Ok (Some (event_record e)) /\
    truthy (Some (event_record e)) = true.
Proof.
  intros [[Hu _] Hz].
  assert (H500 : (500 <= 500 < 800)%nat) by lia.
  assert (Hdraw : -200 < randn d 500).
  { pose proof (Hz 500%nat) as H.
    pose proof (Rle_abs (- randn d 500)) as H'. rewrite Rabs_Ropp in H'. lra. }
  destruct (pulse_sample_above_threshold d 500 Hu H500 Hdraw) as (m & Hm & H3).
  exists m. split; [exact Hm|]. split; [exact H3|].
  split; [apply (detect_event_above_record _ e m Hm H3)|reflexivity].
Qed.

Lemma unauth_always_triggers_witness :
  generator_range calm /\
  exists m,
    np.max (simulate_signal true calm) = Ok m /\ 3 < m /\
    detect_event (simulate_signal true calm) env0 = Ok (Some (event_record env0)) /\
    truthy (Some (event_record env0)) = true.
Proof.
  assert (H : generator_range calm).
  { split; [cbn [rand calm]; lra|].
    intros i. cbn [randn calm]. rewrite Rabs_R0. lra. }
  split; [exact H|]. exact (unauth_always_triggers calm env0 H).
Defined.

Lemma normal_signal_bounded (d : NoiseDraws) (b : R) :
  (forall i, (i < fs)%nat -> nth i (noise d) 0 <= b) ->
  forall x, In x (simulate_signal false d) -> x <= 1 + b.
Proof.
  intros Hn x Hx. destruct (In_signal false d x Hx) as (i & Hi & <-).
  rewrite (nth_signal_normal d i Hi).
  pose proof (base_bound i Hi). pose proof (Hn i Hi). lra.
Qed.

Lemma normal_signal_quiet (d : NoiseDraws) (e : Env) :
  (forall i, (i < fs)%nat -> 0.02 * randn d i <= 2) ->
  exists m,
    np.max (simulate_signal false d) = Ok m /\ m <= 3 /\
    detect_event (simulate_signal false d) e = Ok None.
Proof.
  intros Hn.
  destruct (simulate_signal_max false d) as [m Hm].
  assert (H3 : m <= 3).
  { replace 3 with (1 + 2) by lra. apply (np_max_le _ m _ Hm).
    apply normal_signal_bounded. intros i Hi.
    rewrite (nth_noise d i Hi). exact (Hn i Hi). }
  exists m. split; [exact Hm|]. split; [exact H3|].
  apply (detect_event_below _ e m Hm H3).
Qed.

(** C9. With [unauth] unset and every noise sample [0.02 * randn] of
    magnitude at most 2 (in particular when the Gaussian draws themselves
    are), the maximum of the signal is at most 3.0 and the detector
    returns [None]. *)
Theorem normal_signal_is_silent (d : NoiseDraws) (e : Env) :
  (forall i, (i < fs)%nat -> Rabs (0.02 * randn d i) <= 2) ->
  exists m,
    np.max (simulate_signal false d) = Ok m /\ m <= 3 /\
    detect_event (simulate_signal false d) e = Ok None.
Proof.
  intros Hn. apply normal_signal_quiet. intros i Hi.
  pose proof (Hn i Hi) as H. pose proof (Rle_abs (0.02 * randn d i)). lra.
Qed.

Lemma normal_signal_is_silent_witness :
  (forall i, (i < fs)%nat -> Rabs (0.02 * randn calm i) <= 2) /\
  exists m,
    np.max (simulate_signal false calm) = Ok m /\ m <= 3 /\
    detect_event (simulate_signal false calm) env0 = Ok None.
Proof.
  assert (Hn : forall i, (i < fs)%nat -> Rabs (0.02 * randn calm i) <= 2).
  { intros i _. cbn [randn calm]. rewrite Rmult_0_r, Rabs_R0. lra. }
  split; [exact Hn|]. exact (normal_signal_is_silent calm env0 Hn).
Defined.

(** The same with the bound put on the Gaussian draws. *)
Corollary normal_signal_quiet_draws (d : NoiseDraws) (e : Env) :
  (forall i, (i < fs)%nat -> Rabs (randn d i) <= 2) ->
  detect_event (simulate_signal false d) e = Ok None.
Proof.
  intros Hn.
  destruct (normal_signal_quiet d e) as (m & _ & _ & H); [|exact H].
  intros i Hi. pose proof (Hn i Hi) as H.
  pose proof (Rle_abs (randn d i)). lra.
Qed.
End Pipeline.

(** * Rolling RMS *)

Section RollingRms.
Local Open Scope R_scope.

Lemma convolve_valid_long (a v : list R) :
  v <> [] -> (length v <= length a)%nat ->
  np.convolve_valid a v =
  Ok (map (fun k => np.dot (np.window a k (length v)) (rev v))
          (seq 0 (length a - length v + 1))).
Proof.
  intros Hv Hlen.
  destruct v as [|y v]; [congruence|].
  destruct a as [|x a]; [simpl in Hlen; lia|].
  unfold np.convolve_valid.
  destruct (Nat.ltb_spec (length (x :: a)) (length (y :: v))); [lia|reflexivity].
Qed.

Lemma dot_repeat (l : list R) (c : R) :
  forall n, (length l <= n)%nat ->
  np.dot l (repeat c n) = fold_right Rplus 0 l * c.
Proof.
  unfold np.dot.
  induction l as [|x l IH]; intros n Hn; simpl.
  - lra.
  - destruct n as [|n]; simpl in *; [lia|]. rewrite IH by lia. lra.
Qed.

Lemma window_square (a : list R) (k m : nat) :
  np.window (np.square a) k m = map (fun x => x * x) (np.window a k m).
Proof. unfold np.window, np.square. rewrite skipn_map, firstn_map. reflexivity. Qed.

Lemma length_window (a : list R) (k m : nat) : (length (np.window a k m) <= m)%nat.
Proof. unfold np.window. rewrite length_firstn. lia. Qed.

Lemma sum_squares_nonneg (l : list R) :
  0 <= fold_right Rplus 0 (map (fun x => x * x) l).
Proof.
  induction l as [|x l IH]; simpl; [lra|].
  pose proof (Rle_0_sqr x) as Hx. unfold Rsqr in Hx. lra.
Qed.

Lemma mean_square_nonneg (a : list R) (k w : nat) : 0 <= mean_square a k w.
Proof.
  unfold mean_square, Rdiv. apply Rmult_le_pos; [apply sum_squares_nonneg|].
  destruct w as [|w]; [simpl; rewrite Rinv_0; lra|].
  left. apply Rinv_0_lt_compat, lt_0_INR. lia.
Qed.

Lemma rms_vals_long (signal : list R) :
  (window <= length signal)%nat ->
  rms_vals signal =
  Ok (map (fun k => sqrt (mean_square signal k window))
          (seq 0 (length signal - window + 1))).
Proof.
  intros Hlen. unfold rms_vals.
  assert (Hones : length (np.ones_over window) = window)
    by (unfold np.ones_over; apply repeat_length).
  assert (Hsq : length (np.square signal) = length signal)
    by (unfold np.square; apply length_map).
  rewrite convolve_valid_long.
  - cbn [bind]. f_equal. unfold np.sqrt. rewrite map_map, Hones, Hsq.
    apply map_ext. intros k. f_equal.
    unfold np.ones_over. rewrite rev_repeat, window_square, dot_repeat.
    + unfold mean_square. lra.
    + rewrite length_map. apply length_window.
  - intros H. rewrite H in Hones. discriminate Hones.
  - rewrite Hones, Hsq. exact Hlen.
Qed.

(** C5. On at least 500 samples the rolling RMS is computed, has
    [length - 500 + 1] values, each non-negative; the value at [k] is the
    square root of the mean of the squares of the samples [k .. k + 499],
    a mean that is itself non-negative. *)
Theorem rms_vals_length_nonneg (signal : list R) :
  (500 <= length signal)%nat ->
  exists out,
    rms_vals signal = Ok out /\
    length out = (length signal - 500 + 1)%nat /\
    Forall (fun v => 0 <= v) out /\
    forall k, (k < length out)%nat ->
      nth k out 0 = sqrt (mean_square signal k 500) /\
      0 <= mean_square signal k 500.
Proof.
  intros Hlen. eexists. split; [apply rms_vals_long; exact Hlen|].
  change window with 500%nat.
  split; [rewrite length_map, length_seq; reflexivity|]. split.
  - apply Forall_forall. intros v Hv. apply in_map_iff in Hv.
    destruct Hv as (k & <- & _). apply sqrt_pos.
  - intros k Hk. rewrite length_map, length_seq in Hk.
    split; [|apply mean_square_nonneg].
    rewrite (nth_indep _ 0 (sqrt (mean_square signal 0 500)))
      by (rewrite length_map, length_seq; exact Hk).
    rewrite (map_nth (fun k => sqrt (mean_square signal k 500))).
    rewrite seq_nth by exact Hk. reflexivity.
Qed.

Lemma rms_vals_length_nonneg_witness :
  (500 <= length (simulate_signal false calm))%nat /\
  exists out,
    rms_vals (simulate_signal false calm) = Ok out /\
    length out = (length (simulate_signal false calm) - 500 + 1)%nat /\
    Forall (fun v => 0 <= v) out /\
    forall k, (k < length out)%nat ->
      nth k out 0 = sqrt (mean_square (simulate_signal false calm) k 500) /\
      0 <= mean_square (simulate_signal false calm) k 500.
Proof.
  assert (H : (500 <= length (simulate_signal false calm))%nat)
    by (rewrite simulate_signal_length, fs_value; lia).
  split; [exact H|].
  exact (rms_vals_length_nonneg (simulate_signal false calm) H).
Defined.
End RollingRms.

(** * The event log across refreshes *)

Section EventLog.

(** C1, at the one-sample signal [[4]]. *)
Lemma detect_event_threshold_witness :
  is_maximum 4 [4%R] /\
  (3 < 4 ->
   detect_event [4%R] env0 = Ok (Some (event_record env0)) /\
   map fst (event_record env0) = csv_header /\
   truthy (Some (event_record env0)) = true)%R /\
  (4 <= 3 -> detect_event [4%R] env0 = Ok None)%R /\
  (forall ev, detect_event [4%R] env0 = Ok (Some ev) ->
              3 < 4 /\ ev = event_record env0)%R.
Proof.
  assert (H : is_maximum 4 [4%R]).
  { split; [left; reflexivity|]. intros x [<-|[]]. lra. }
  split; [exact H|]. exact (detect_event_threshold [4%R] env0 4 H).
Defined.

(** The record the detector builds, when it builds one. *)
Lemma detect_event_record (signal : list R) (e : Env) (ev : Event) :
  detect_event signal e = Ok (Some ev) ->
  ev = [ ("time", strftime_HMS (now e));
         ("substation", nth (rnd_substation e mod 2) substations EmptyString);
         ("feeder", nth (rnd_feeder e mod 3) feeders EmptyString);
         ("location",
          str_hundredths (round2 (random.uniform (rnd_location e) 0.5 2.5)) ++ " km");
         ("status", "Unauthorized Fence") ]%string.
Proof.
  unfold detect_event. destruct (np.max signal) as [m|x]; cbn [bind]; [|discriminate].
  destruct (Rlt_dec threshold m) as [_|_]; [|discriminate].
  cbn [bind random.choice feeders substations length].
  intros [= <-]. reflexivity.
Qed.

Lemma detect_event_total (unauth : bool) (d : NoiseDraws) (e : Env) :
  exists o, detect_event (simulate_signal unauth d) e = Ok o.
Proof.
  destruct (simulate_signal_max unauth d) as [m Hm].
  destruct (Rlt_dec 3 m) as [H|H].
  - destruct (detect_event_above _ e m Hm H) as [ev Hev]. eauto.
  - exists None. apply (detect_event_below _ e m Hm). lra.
Qed.

Lemma rms_vals_signal (unauth : bool) (d : NoiseDraws) :
  exists v, rms_vals (simulate_signal unauth d) = Ok v.
Proof.
  eexists. apply rms_vals_long.
  rewrite simulate_signal_length, fs_value. unfold window. lia.
Qed.

Lemma detected_some (r : Refresh) (ev : Event) :
  detected r = Some ev <-> detect_event (signal_of r) (env r) = Ok (Some ev).
Proof.
  unfold detected. destruct (detect_event (signal_of r) (env r)) as [[ev'|]|x];
    split; intros H; try discriminate; congruence.
Qed.

(** One run of the script: it completes, and the log it leaves is the log
    it found with the detected event, if any, in front. *)
Lemma run_script_log (st : session_state) (r : Refresh) :
  exists page,
    run_script st r =
    Ok (Some (match detected r with
              | Some ev => ev :: events_of st
              | None => events_of st
              end), page).
Proof.
  unfold run_script, detected, signal_of.
  destruct (detect_event_total (unauth (controls r)) (draws r) (env r)) as [o Ho].
  rewrite Ho. cbn [bind].
  assert (Hrms : exists rms,
    (if show_rms (controls r)
     then (v <- rms_vals (simulate_signal (unauth (controls r)) (draws r)) ;;
           Ok (Some v))%result
     else Ok None) = Ok rms).
  { destruct (show_rms (controls r)); [|eauto].
    destruct (rms_vals_signal (unauth (controls r)) (draws r)) as [v ->].
    cbn [bind]. eauto. }
  destruct Hrms as [rms ->]. cbn [bind].
  destruct o as [ev|].
  - rewrite (detect_event_record _ _ _ Ho). cbn. eauto.
  - cbn. eauto.
Qed.

Lemma run_session_log (rs : list Refresh) :
  forall st, exists st',
    run_session st rs = Ok st' /\
    events_of st' = rev (detections rs) ++ events_of st.
Proof.
  induction rs as [|r rs IH]; intros st.
  - exists st. split; reflexivity.
  - destruct (run_script_log st r) as [page Hrun].
    cbn [run_session detections]. rewrite Hrun. cbn [bind fst].
    destruct (IH (Some (match detected r with
                        | Some ev => ev :: events_of st
                        | None => events_of st
                        end))) as (st' & Hst' & Hlog).
    exists st'. split; [exact Hst'|]. rewrite Hlog.
    destruct (detected r) as [ev|]; cbn [events_of rev]; [|reflexivity].
    rewrite <- app_assoc. reflexivity.
Qed.

Lemma detections_met_threshold (rs : list Refresh) :
  Forall (fun ev => exists r m,
            In r rs /\ detect_event (signal_of r) (env r) = Ok (Some ev) /\
            is_maximum m (signal_of r) /\ (3 < m)%R)
         (detections rs).
Proof.
  induction rs as [|r rs IH]; cbn [detections]; [constructor|].
  assert (IH' : Forall (fun ev => exists r0 m,
            In r0 (r :: rs) /\ detect_event (signal_of r0) (env r0) = Ok (Some ev) /\
            is_maximum m (signal_of r0) /\ (3 < m)%R) (detections rs)).
  { eapply Forall_impl; [|exact IH]. intros ev (r0 & m & Hin & H).
    exists r0, m. split; [right; exact Hin|exact H]. }
  destruct (detected r) as [ev|] eqn:Hdet; [|exact IH'].
  constructor; [|exact IH'].
  apply detected_some in Hdet.
  destruct (detect_event_some _ _ _ Hdet) as (m & Hm & H3).
  exists r, m. split; [left; reflexivity|]. split; [exact Hdet|].
  split; [apply np_max_is_maximum; exact Hm|exact H3].
Qed.

Lemma hd_error_rev {A : Type} (l : list A) :
  hd_error (rev l) = last (map Some l) None.
Proof.
  induction l as [|x l IH]; [reflexivity|].
  cbn [rev map]. destruct l as [|y l]; [reflexivity|].
  change (last (Some x :: map Some (y :: l)) None) with (last (map Some (y :: l)) None).
  rewrite <- IH. cbn [rev]. destruct (rev l ++ [y]) eqn:E; [|reflexivity].
  destruct (rev l); discriminate E.
Qed.

(** C6. A session that starts without a log ends with the events of its
    detecting refreshes, newest first: as many entries as detections, the
    last detection at index 0, each entry returned by the detector on a
    signal whose maximum exceeded 3.0.  A single refresh, from any state,
    leaves the log it found as it was, behind at most one new entry. *)
Theorem event_log_newest_first (rs : list Refresh) (st : session_state) (r : Refresh) :
  (exists st',
     run_session None rs = Ok st' /\
     events_of st' = rev (detections rs) /\
     length (events_of st') = length (detections rs) /\
     hd_error (events_of st') = last (map Some (detections rs)) None /\
     Forall (fun ev => exists r m,
               In r rs /\ detect_event (signal_of r) (env r) = Ok (Some ev) /\
               is_maximum m (signal_of r) /\ (3 < m)%R)
            (events_of st')) /\
  (exists st' page new,
     run_script st r = Ok (st', page) /\
     events_of st' = new ++ events_of st /\
     (length new <= 1)%nat).
Proof.
  split.
  - destruct (run_session_log rs None) as (st' & Hrun & Hlog).
    cbn [events_of] in Hlog. rewrite app_nil_r in Hlog.
    exists st'. split; [exact Hrun|]. rewrite Hlog.
    split; [reflexivity|]. split; [apply length_rev|].
    split; [apply hd_error_rev|].
    apply Forall_rev, detections_met_threshold.
  - destruct (run_script_log st r) as [page Hrun].
    eexists _, page, (match detected r with Some ev => [ev] | None => [] end).
    split; [exact Hrun|].
    destruct (detected r); cbn; split; auto.
Qed.

(** C10. A refresh on which the detector returns [None] completes and leaves
    the log exactly as it found it. *)
Theorem silent_refresh_keeps_log (st : session_state) (r : Refresh) :
  detect_event (signal_of r) (env r) = Ok None ->
  exists page,
    run_script st r = Ok (Some (events_of st), page) /\
    alerts page = [StSuccess].
Proof.
  intros Hnone.
  unfold run_script. unfold signal_of in Hnone. rewrite Hnone. cbn [bind].
  destruct (show_rms (controls r)).
  - destruct (rms_vals_signal (unauth (controls r)) (draws r)) as [v ->].
    cbn. eauto.
  - cbn. eauto.
Qed.

Lemma silent_refresh_keeps_log_witness :
  detect_event (signal_of quiet_refresh) (env quiet_refresh) = Ok None /\
  exists page,
    run_script (Some [sample_event]) quiet_refresh = Ok (Some [sample_event], page) /\
    alerts page = [StSuccess].
Proof.
  assert (H : detect_event (signal_of quiet_refresh) (env quiet_refresh) = Ok None).
  { destruct (normal_signal_quiet calm env0) as (m & _ & _ & H); [|exact H].
    intros i _. cbn [randn calm]. lra. }
  split; [exact H|].
  exact (silent_refresh_keeps_log (Some [sample_event]) quiet_refresh H).
Defined.
End EventLog.

(** * The location field *)

Section Location.

Lemma round_half_even_floor (q : Q) :
  (Qfloor q <= round_half_even q <= Qfloor q + 1)%Z.
Proof.
  unfold round_half_even.
  destruct (q - inject_Z (Qfloor q) ?= 1 # 2)%Q; [destruct (Z.even (Qfloor q))| |]; lia.
Qed.

Lemma round_half_even_lower (q : Q) (n : Z) :
  (inject_Z n <= q)%Q -> (n <= round_half_even q)%Z.
Proof.
  intros H. apply Qfloor_resp_le in H. rewrite Qfloor_Z in H.
  pose proof (round_half_even_floor q). lia.
Qed.

Lemma round_half_even_upper (q : Q) (n : Z) :
  (q <= inject_Z n)%Q -> (round_half_even q <= n)%Z.
Proof.
  intros H. pose proof (Qfloor_resp_le _ _ H) as Hf. rewrite Qfloor_Z in Hf.
  pose proof (round_half_even_floor q) as Hr.
  destruct (Z.eq_dec (Qfloor q) n) as [E|E]; [|lia].
  assert (Hlt : (q - inject_Z (Qfloor q) < 1 # 2)%Q).
  { rewrite E. apply Qle_lt_trans with (y := 0%Q); [|reflexivity].
    apply (Qplus_le_l _ _ (inject_Z n)). ring_simplify. exact H. }
  unfold round_half_even.
  destruct (Qcompare_spec (q - inject_Z (Qfloor q)) (1 # 2)) as [He|Hl|Hg]; [|lia|].
  - rewrite He in Hlt. discriminate Hlt.
  - exfalso. apply (Qlt_irrefl (1 # 2)). eapply Qlt_trans; eassumption.
Qed.

Lemma round2_uniform_range (u : Q) :
  (0 <= u < 1)%Q ->
  (50 <= round2 (random.uniform u 0.5 2.5) <= 250)%Z.
Proof.
  intros [H0 H1]. unfold round2, random.uniform. split.
  - apply round_half_even_lower.
    apply Qle_trans with (y := ((0.5 + (2.5 - 0.5) * 0) * 100)%Q); [discriminate|].
    apply Qmult_le_compat_r; [|discriminate].
    apply Qplus_le_r. apply Qmult_le_l; [reflexivity|exact H0].
  - apply round_half_even_upper.
    apply Qle_trans with (y := ((0.5 + (2.5 - 0.5) * 1) * 100)%Q); [|discriminate].
    apply Qmult_le_compat_r; [|discriminate].
    apply Qplus_le_r. apply Qmult_le_l; [reflexivity|apply Qlt_le_weak; exact H1].
Qed.

(** Every number of hundredths from 50 to 250 prints as a numeral with one
    or two decimals that reads back as the same number. *)
Lemma hundredths_table :
  forallb (fun n => let s := (str_hundredths (Z.of_nat n) ++ " km")%string in
                    reads_as_hundredths (Z.of_nat n) s && location_in_range s)
          (seq 50 201) = true.
Proof. vm_compute. reflexivity. Qed.

Lemma hundredths_read_back (h : Z) :
  (50 <= h <= 250)%Z ->
  reads_as_hundredths h (str_hundredths h ++ " km") = true /\
  location_in_range (str_hundredths h ++ " km") = true.
Proof.
  intros Hh. pose proof hundredths_table as Ht.
  rewrite forallb_forall in Ht. specialize (Ht (Z.to_nat h)).
  rewrite Z2Nat.id in Ht by lia. apply andb_true_iff, Ht.
  apply in_seq. lia.
Qed.

(** C8 (amended). The location of a detector record is the text
    ["<numeral> km"] whose numeral has one or two decimals (the float
    rounded to two decimals is printed in its shortest form) and whose value,
    the rounded draw, lies in [[0.5, 2.5]]. *)
Theorem location_short_decimal_in_range (signal : list R) (e : Env) (ev : Event) :
  (0 <= rnd_location e < 1)%Q ->
  detect_event signal e = Ok (Some ev) ->
  exists loc n k,
    dict_get "location" ev = Some loc /\
    read_km loc = Some (n, k) /\
    (k = 1 \/ k = 2) /\
    (decimal_value (n, k)
     == round2 (random.uniform (rnd_location e) 0.5 2.5) # 100)%Q /\
    (0.5 <= decimal_value (n, k) <= 2.5)%Q.
Proof.
  intros Hu Hev. rewrite (detect_event_record signal e ev Hev).
  set (h := round2 (random.uniform (rnd_location e) 0.5 2.5)).
  destruct (hundredths_read_back h (round2_uniform_range _ Hu)) as [Hread Hrange].
  exists (str_hundredths h ++ " km")%string.
  unfold reads_as_hundredths in Hread. unfold location_in_range in Hrange.
  destruct (read_km (str_hundredths h ++ " km")) as [[n k]|]; [|discriminate].
  exists n, k. split; [reflexivity|]. split; [reflexivity|].
  apply andb_true_iff in Hread. destruct Hread as [Hk Hval].
  apply andb_true_iff in Hrange. destruct Hrange as [Hrange Hhi].
  apply andb_true_iff in Hrange. destruct Hrange as [_ Hlo].
  split; [|split; [|split]].
  - apply orb_true_iff in Hk. destruct Hk as [Hk|Hk]; apply Nat.eqb_eq in Hk; auto.
  - apply Qeq_bool_iff. exact Hval.
  - apply Qle_bool_iff in Hlo. apply Qle_trans with (y := 1 # 2); [discriminate|exact Hlo].
  - apply Qle_bool_iff in Hhi. apply Qle_trans with (y := 5 # 2); [exact Hhi|discriminate].
Qed.

Lemma detect_sample_event : detect_event [4%R] env0 = Ok (Some sample_event).
Proof.
  unfold detect_event. cbn [np.max np.max_from bind].
  destruct (Rlt_dec threshold 4) as [_|n].
  - vm_compute. reflexivity.
  - exfalso. apply n. unfold threshold. lra.
Qed.

Lemma location_short_decimal_in_range_witness :
  (0 <= rnd_location env0 < 1)%Q /\
  detect_event [4%R] env0 = Ok (Some sample_event) /\
  exists loc n k,
    dict_get "location" sample_event = Some loc /\
    read_km loc = Some (n, k) /\
    (k = 1 \/ k = 2) /\
    (decimal_value (n, k)
     == round2 (random.uniform (rnd_location env0) 0.5 2.5) # 100)%Q /\
    (0.5 <= decimal_value (n, k) <= 2.5)%Q.
Proof.
  assert (Hu : (0 <= rnd_location env0 < 1)%Q) by (split; [discriminate|reflexivity]).
  split; [exact Hu|]. split; [exact detect_sample_event|].
  exact (location_short_decimal_in_range [4%R] env0 sample_event Hu detect_sample_event).
Defined.

(** C8 (as stated, with exactly two decimals): the draw [0.5] gives the
    distance 1.5, a value of the range, and the record shows it as
    ["1.5 km"]. *)
Lemma location_with_one_decimal :
  (0 <= rnd_location env0 < 1)%Q /\
  detect_event [4%R] env0 = Ok (Some sample_event) /\
  dict_get "location" sample_event = Some "1.5 km"%string /\
  two_decimal_km "1.5 km" = false.
Proof.
  split; [split; [discriminate|reflexivity]|].
  split; [exact detect_sample_event|]. split; reflexivity.
Qed.
End Location.

(** * The CSV export *)

Section CsvExport.
Local Open Scope string_scope.

Lemma append_nil_r (s : string) : s ++ EmptyString = s.
Proof. induction s as [|c s IH]; simpl; [|rewrite IH]; reflexivity. Qed.

Lemma append_assoc (a b c : string) : (a ++ b) ++ c = a ++ (b ++ c).
Proof. induction a as [|x a IH]; simpl; [|rewrite IH]; reflexivity. Qed.

Lemma has_special_append (a b : string) :
  pd.has_special (a ++ b) = pd.has_special a || pd.has_special b.
Proof.
  induction a as [|x a IH]; simpl; [reflexivity|].
  rewrite IH. apply orb_assoc.
Qed.

(** *** UTF-8 *)

Lemma utf8_decode_char (c : ascii) (rest : list byte) :
  utf8_decode (utf8_encode_char c ++ rest)
  = option_map (String c) (utf8_decode rest).
Proof.
  destruct c as [b0 b1 b2 b3 b4 b5 b6 b7].
  destruct b0, b1, b2, b3, b4, b5, b6, b7; reflexivity.
Qed.

Lemma utf8_decode_encode (s : string) : utf8_decode (utf8_encode s) = Some s.
Proof.
  induction s as [|c s IH]; [reflexivity|].
  cbn [utf8_encode]. rewrite utf8_decode_char, IH. reflexivity.
Qed.

(** *** Reading back what [csv_line] writes *)

Lemma csv_field_plain (s : string) : pd.has_special s = false -> pd.csv_field s = s.
Proof. intros H. unfold pd.csv_field. rewrite H. reflexivity. Qed.

Lemma map_csv_field_plain (fields : list string) :
  Forall (fun s => pd.has_special s = false) fields ->
  map pd.csv_field fields = fields.
Proof.
  induction 1 as [|s fields Hs _ IH]; [reflexivity|].
  cbn [map]. rewrite IH, (csv_field_plain s Hs). reflexivity.
Qed.

Lemma csv_parse_plain (f rest g : string) (r : list string) (rs : list (list string)) :
  pd.has_special f = false ->
  csv_parse Unquoted rest = (g, r, rs) ->
  csv_parse Unquoted (f ++ rest) = (f ++ g, r, rs).
Proof.
  intros Hf Hrest. induction f as [|c f IH]; [exact Hrest|].
  cbn [pd.has_special] in Hf. apply orb_false_iff in Hf. destruct Hf as [Hc Hf].
  unfold pd.special in Hc.
  apply orb_false_iff in Hc. destruct Hc as [Hc _].
  apply orb_false_iff in Hc. destruct Hc as [Hc Hnl].
  apply orb_false_iff in Hc. destruct Hc as [Hcomma Hquote].
  cbn [append csv_parse]. rewrite Hquote, Hcomma, Hnl, (IH Hf). reflexivity.
Qed.

Lemma csv_parse_comma (s : string) :
  csv_parse Unquoted (String pd.comma s) = end_field (csv_parse Unquoted s).
Proof. reflexivity. Qed.

Lemma csv_parse_newline (s : string) :
  csv_parse Unquoted (String pd.newline s) = end_row (csv_parse Unquoted s).
Proof. reflexivity. Qed.

Lemma csv_parse_fields (fields : list string) :
  forall (f1 rest : string),
    Forall (fun s => pd.has_special s = false) (f1 :: fields) ->
    csv_parse Unquoted
      (String.concat (String pd.comma EmptyString) (f1 :: fields)
       ++ String pd.newline rest)
    = (f1, fields, csv_rows rest).
Proof.
  induction fields as [|f2 fields IH]; intros f1 rest Hplain;
    inversion Hplain as [|? ? Hf1 Hrest]; subst.
  - cbn [String.concat].
    rewrite (csv_parse_plain f1 (String pd.newline rest)
               EmptyString [] (csv_rows rest) Hf1).
    + rewrite append_nil_r. reflexivity.
    + rewrite csv_parse_newline. unfold csv_rows.
      destruct (csv_parse Unquoted rest) as [[g r] rs]. reflexivity.
  - change (String.concat (String pd.comma EmptyString) (f1 :: f2 :: fields))
      with (f1 ++ String pd.comma
               (String.concat (String pd.comma EmptyString) (f2 :: fields))).
    rewrite append_assoc.
    change (String pd.comma
              (String.concat (String pd.comma EmptyString) (f2 :: fields))
            ++ String pd.newline rest)
      with (String pd.comma
              (String.concat (String pd.comma EmptyString) (f2 :: fields)
               ++ String pd.newline rest)).
    rewrite (csv_parse_plain f1
               (String pd.comma
                  (String.concat (String pd.comma EmptyString) (f2 :: fields)
                   ++ String pd.newline rest))
               EmptyString (f2 :: fields) (csv_rows rest) Hf1).
    + rewrite append_nil_r. reflexivity.
    + rewrite csv_parse_comma, (IH f2 rest Hrest). reflexivity.
Qed.

Lemma csv_parse_line (fields : list string) (f1 rest : string) :
  Forall (fun s => pd.has_special s = false) (f1 :: fields) ->
  csv_parse Unquoted (pd.csv_line (f1 :: fields) ++ rest)
  = (f1, fields, csv_rows rest).
Proof.
  intros Hplain. unfold pd.csv_line.
  rewrite (map_csv_field_plain _ Hplain), append_assoc.
  apply (csv_parse_fields fields f1 rest Hplain).
Qed.

Lemma concat_lines (l : string) (ls : list string) :
  String.concat EmptyString (l :: ls) = l ++ String.concat EmptyString ls.
Proof. destruct ls; cbn [String.concat]; [rewrite append_nil_r|]; reflexivity. Qed.

Lemma csv_rows_lines (table : list (list string)) :
  Forall (fun row => row <> [] /\ Forall (fun s => pd.has_special s = false) row)
         table ->
  csv_rows (String.concat EmptyString (map pd.csv_line table))
  = (table ++ [[EmptyString]])%list.
Proof.
  induction 1 as [|row table [Hne Hplain] _ IH]; [reflexivity|].
  cbn [map]. rewrite concat_lines.
  destruct row as [|f1 fields]; [congruence|].
  unfold csv_rows at 1. rewrite (csv_parse_line fields f1 _ Hplain), IH.
  reflexivity.
Qed.

Lemma filter_blank_lines (table : list (list string)) :
  Forall (fun row => blank_line row = false) table ->
  filter (fun row => negb (blank_line row)) (table ++ [[EmptyString]])%list = table.
Proof.
  induction 1 as [|row table Hrow _ IH]; [reflexivity|].
  cbn [app filter]. rewrite Hrow, IH. reflexivity.
Qed.

Lemma several_fields_not_blank (row : list string) :
  2 <= length row -> blank_line row = false.
Proof. destruct row as [|a [|b row]]; simpl; intros H; [lia|lia|]. destruct a; reflexivity. Qed.

Lemma read_csv_to_csv (header : list string) (table : list (list string)) :
  Forall (fun row => 2 <= length row /\
                     Forall (fun s => pd.has_special s = false) row)
         (header :: table) ->
  read_csv (pd.to_csv {| pd.columns := header;
                         pd.rows := map (map Some) table |})
  = Some (header, table).
Proof.
  intros Hall. inversion Hall as [|? ? [Hlen Hplain] Htable]; subst.
  unfold read_csv, pd.to_csv. cbn [pd.columns pd.rows].
  rewrite map_map.
  rewrite (map_ext (fun r => pd.csv_line (map pd.cell_text (map Some r))) pd.csv_line)
    by (intros r; rewrite map_map; cbn [pd.cell_text]; rewrite map_id; reflexivity).
  destruct header as [|h1 hs]; [simpl in Hlen; lia|].
  unfold csv_rows at 1. rewrite (csv_parse_line hs h1 _ Hplain).
  rewrite csv_rows_lines.
  - cbn [filter]. rewrite (several_fields_not_blank (h1 :: hs) Hlen). cbn [negb].
    rewrite filter_blank_lines; [reflexivity|].
    eapply Forall_impl; [|exact Htable].
    intros row [Hrow _]. apply several_fields_not_blank, Hrow.
  - eapply Forall_impl; [|exact Htable].
    intros row [Hrow Hp]. split; [|exact Hp].
    intros ->. simpl in Hrow. lia.
Qed.

(** *** The fields of a detector record need no quoting *)

Lemma digit_plain (d : nat) : pd.special (digit d) = false.
Proof. do 10 (destruct d as [|d]; [reflexivity|]). reflexivity. Qed.

Lemma two_digits_plain (n : nat) : pd.has_special (two_digits n) = false.
Proof.
  unfold two_digits. cbn [pd.has_special]. rewrite !digit_plain. reflexivity.
Qed.

Lemma strftime_plain (now : struct_time) : pd.has_special (strftime_HMS now) = false.
Proof.
  unfold strftime_HMS. rewrite !has_special_append, !two_digits_plain. reflexivity.
Qed.

Lemma decimal_plain (fuel : nat) :
  forall n, pd.has_special (decimal fuel n) = false.
Proof.
  induction fuel as [|fuel IH]; intros n; [reflexivity|].
  cbn [decimal]. rewrite has_special_append. cbn [pd.has_special].
  rewrite digit_plain. destruct (n <? 10)%nat; [reflexivity|].
  rewrite IH. reflexivity.
Qed.

Lemma str_hundredths_plain (h : Z) : pd.has_special (str_hundredths h) = false.
Proof.
  unfold str_hundredths. rewrite !has_special_append, decimal_plain.
  cbn [pd.has_special]. rewrite digit_plain.
  destruct (Z.to_nat h mod 10 =? 0)%nat; cbn [pd.has_special];
    [|rewrite digit_plain]; reflexivity.
Qed.

Lemma feeder_plain (i : nat) : pd.has_special (nth i feeders EmptyString) = false.
Proof. do 3 (destruct i as [|i]; [reflexivity|]). destruct i; reflexivity. Qed.

Lemma substation_plain (i : nat) :
  pd.has_special (nth i substations EmptyString) = false.
Proof. do 2 (destruct i as [|i]; [reflexivity|]). destruct i; reflexivity. Qed.

Lemma detector_event_fields (ev : Event) :
  detector_event ev ->
  map fst ev = csv_header /\
  Forall (fun s => pd.has_special s = false) (map snd ev).
Proof.
  intros (signal & e & Hev). rewrite (detect_event_record signal e ev Hev).
  split; [reflexivity|]. cbn [map snd].
  repeat constructor.
  - apply strftime_plain.
  - apply substation_plain.
  - apply feeder_plain.
  - rewrite has_special_append, str_hundredths_plain. reflexivity.
Qed.

Lemma detector_event_cells (ev : Event) :
  detector_event ev ->
  map (fun c => dict_get c ev) csv_header = map Some (map snd ev).
Proof.
  intros (signal & e & Hev). rewrite (detect_event_record signal e ev Hev).
  reflexivity.
Qed.

Lemma columns_of_detector_log (log : list Event) :
  Forall detector_event log ->
  forall cols, cols = [] \/ cols = csv_header ->
  fold_left (fun cols d => pd.union_keys cols (map fst d)) log cols
  = match log with [] => cols | _ => csv_header end.
Proof.
  induction 1 as [|ev log Hev _ IH]; intros cols Hcols; [reflexivity|].
  cbn [fold_left]. destruct (detector_event_fields ev Hev) as [-> _].
  rewrite IH.
  - destruct log; [|reflexivity]. destruct Hcols as [->| ->]; reflexivity.
  - right. destruct Hcols as [->| ->]; reflexivity.
Qed.

Lemma from_records_detector_log (log : list Event) :
  log <> [] -> Forall detector_event log ->
  pd.from_records log
  = {| pd.columns := csv_header;
       pd.rows := map (map Some) (map (map snd) log) |}.
Proof.
  intros Hne Hall. unfold pd.from_records.
  rewrite (columns_of_detector_log log Hall [] (or_introl eq_refl)).
  destruct log as [|ev0 log0]; [congruence|]. f_equal.
  rewrite map_map. apply map_ext_in. intros ev Hin.
  apply detector_event_cells. rewrite Forall_forall in Hall. apply Hall, Hin.
Qed.

Lemma export_reads_back (log : list Event) :
  log <> [] -> Forall detector_event log ->
  utf8_decode (export_csv log) = Some (pd.to_csv (pd.from_records log)) /\
  (exists body,
     pd.to_csv (pd.from_records log)
     = "time,substation,feeder,location,status" ++ String pd.newline body) /\
  read_csv (pd.to_csv (pd.from_records log)) = Some (csv_header, map (map snd) log).
Proof.
  intros Hne Hall. split; [apply utf8_decode_encode|].
  rewrite (from_records_detector_log log Hne Hall). split.
  - eexists. unfold pd.to_csv. cbn [pd.columns]. reflexivity.
  - apply read_csv_to_csv. constructor.
    + split; [cbn; lia|]. repeat constructor.
    + apply Forall_forall. intros row Hrow. apply in_map_iff in Hrow.
      destruct Hrow as (ev & <- & Hin). rewrite Forall_forall in Hall.
      destruct (detector_event_fields ev (Hall ev Hin)) as [Hkeys Hplain].
      split; [|exact Hplain].
      rewrite length_map, <- (length_map fst), Hkeys. cbn. lia.
Qed.

(** C7. The export of a non-empty log of detector records is UTF-8 text
    that starts with the line [time,substation,feeder,location,status],
    followed by one line per record in the order of the log (newest first);
    read back, it gives the columns and the cells of the frame the export
    was made from, with as many rows as the log has records. *)
Theorem csv_export_round_trip (log : list Event) :
  log <> [] -> Forall detector_event log ->
  exists text body table,
    utf8_decode (export_csv log) = Some text /\
    text = "time,substation,feeder,location,status" ++ String pd.newline body /\
    read_csv text = Some (csv_header, table) /\
    table = map (map snd) log /\
    length table = length log /\
    pd.columns (pd.from_records log) = csv_header /\
    pd.rows (pd.from_records log) = map (map Some) table.
Proof.
  intros Hne Hall.
  destruct (export_reads_back log Hne Hall) as (Hdec & [body Hbody] & Hread).
  exists (pd.to_csv (pd.from_records log)), body, (map (map snd) log).
  rewrite (from_records_detector_log log Hne Hall) in *.
  repeat split; try assumption. apply length_map.
Qed.

Lemma csv_export_round_trip_witness :
  [sample_event] <> [] /\ Forall detector_event [sample_event] /\
  exists text body table,
    utf8_decode (export_csv [sample_event]) = Some text /\
    text = "time,substation,feeder,location,status" ++ String pd.newline body /\
    read_csv text = Some (csv_header, table) /\
    table = map (map snd) [sample_event] /\
    length table = length [sample_event] /\
    pd.columns (pd.from_records [sample_event]) = csv_header /\
    pd.rows (pd.from_records [sample_event]) = map (map Some) table.
Proof.
  assert (Hne : [sample_event] <> []) by discriminate.
  assert (Hall : Forall detector_event [sample_event]).
  { constructor; [|constructor]. exists [4%R], env0. exact detect_sample_event. }
  split; [exact Hne|]. split; [exact Hall|].
  exact (csv_export_round_trip [sample_event] Hne Hall).
Defined.

(** The log a session holds is such a log, so its export reads back. *)
Corollary session_export_reads_back (rs : list Refresh) (st : session_state) :
  run_session None rs = Ok st -> events_of st <> [] ->
  read_csv (pd.to_csv (pd.from_records (events_of st)))
  = Some (csv_header, map (map snd) (events_of st)).
Proof.
  intros Hrun Hne. apply export_reads_back; [exact Hne|].
  destruct (run_session_log rs None) as (st' & Hrun' & Hlog).
  rewrite Hrun in Hrun'. injection Hrun' as <-.
  cbn [events_of] in Hlog. rewrite app_nil_r in Hlog. rewrite Hlog.
  apply Forall_rev. eapply Forall_impl; [|apply detections_met_threshold].
  intros ev (r & m & _ & Hev & _). exists (signal_of r), (env r). exact Hev.
Qed.
End CsvExport.

(** * Further properties of the generator and of the detector *)

Section GeneratorMore.
Local Open Scope R_scope.

Lemma INR_fs_pred : INR (fs - 1) = 19999.
Proof.
  rewrite INR_IZR_INZ.
  replace (Z.of_nat (fs - 1)) with 19999%Z by (vm_compute; reflexivity).
  reflexivity.
Qed.

Lemma nth_t_value (i : nat) : (i < fs)%nat -> nth i t 0 = INR i * (0.04 / 19999).
Proof. intros Hi. rewrite (nth_t i Hi), INR_fs_pred. lra. Qed.

(** X1. The time axis of [np.linspace(0, 0.04, fs)] starts at 0, ends at
    0.04 inclusive and increases strictly in between; the mains sine starts
    at 0. *)
Theorem time_axis_spans_window (i j : nat) :
  (i < j < fs)%nat ->
  0 <= nth i t 0 < nth j t 0 /\ nth j t 0 <= 0.04 /\
  nth 0 t 0 = 0 /\ nth (fs - 1) t 0 = 0.04 /\
  nth 0 base 0 = 0.
Proof.
  intros [Hij Hj].
  assert (Hi : (i < fs)%nat) by lia.
  assert (H0 : (0 < fs)%nat) by lia.
  assert (Hl : (fs - 1 < fs)%nat) by lia.
  assert (Hend : nth (fs - 1) t 0 = 0.04).
  { rewrite (nth_t_value _ Hl), INR_fs_pred. lra. }
  assert (Hstart : nth 0 t 0 = 0).
  { rewrite (nth_t_value _ H0). simpl. lra. }
  assert (Hord : 0 <= nth i t 0 < nth j t 0 /\ nth j t 0 <= 0.04).
  { rewrite (nth_t_value i Hi), (nth_t_value j Hj).
    pose proof (pos_INR i) as Hpi. pose proof (lt_INR i j Hij) as Hlt.
    assert (Hle : INR j <= 19999).
    { rewrite <- INR_fs_pred. apply le_INR. lia. }
    repeat split; lra. }
  destruct Hord as [Hord Hmax].
  split; [exact Hord|]. split; [exact Hmax|].
  split; [exact Hstart|]. split; [exact Hend|].
  rewrite (nth_base 0 H0), Hstart.
  replace (2 * PI * 50 * 0) with 0 by lra. apply sin_0.
Qed.

Lemma time_axis_spans_window_witness :
  (0 < 1 < fs)%nat /\
  0 <= nth 0 t 0 < nth 1 t 0 /\ nth 1 t 0 <= 0.04 /\
  nth 0 t 0 = 0 /\ nth (fs - 1) t 0 = 0.04 /\
  nth 0 base 0 = 0.
Proof.
  assert (H : (0 < 1 < fs)%nat) by (rewrite fs_value; lia).
  split; [exact H|]. exact (time_axis_spans_window 0 1 H).
Defined.

Lemma pulse_value_range (d : NoiseDraws) :
  0 <= rand d < 1 -> 8 <= pulse_value d < 10.
Proof. unfold pulse_value. lra. Qed.

(** X2. On the same draws, ticking [unauth] changes the signal by the pulse
    alone: at the indices [500 <= i < 800] the sample is the sample of the
    plain signal plus [p], with [8 <= p <= 10], and everywhere else the two
    signals have the same sample. *)
Theorem pulse_is_the_only_difference (d : NoiseDraws) (i : nat) :
  (i < fs)%nat -> 0 <= rand d < 1 ->
  8 <= pulse_value d <= 10 /\
  nth i (simulate_signal true d) 0
  = (if ((500 <=? i) && (i <? 800))%nat
     then nth i (simulate_signal false d) 0 + pulse_value d
     else nth i (simulate_signal false d) 0).
Proof.
  intros Hi Hu. split; [pose proof (pulse_value_range d Hu); lra|].
  rewrite (nth_signal_unauth d i Hi), (nth_signal_normal d i Hi).
  destruct ((500 <=? i)%nat && (i <? 800)%nat); lra.
Qed.

Lemma pulse_is_the_only_difference_witness :
  (500 < fs)%nat /\ 0 <= rand calm < 1 /\
  8 <= pulse_value calm <= 10 /\
  nth 500 (simulate_signal true calm) 0
  = (if ((500 <=? 500) && (500 <? 800))%nat
     then nth 500 (simulate_signal false calm) 0 + pulse_value calm
     else nth 500 (simulate_signal false calm) 0).
Proof.
  assert (Hi : (500 < fs)%nat) by (rewrite fs_value; lia).
  assert (Hu : 0 <= rand calm < 1) by (cbn [rand calm]; lra).
  split; [exact Hi|]. split; [exact Hu|].
  exact (pulse_is_the_only_difference calm 500 Hi Hu).
Defined.

(** X3. With every noise sample of magnitude at most [b], a sample without
    pulse lies in [[-1 - b, 1 + b]] and a sample of the pulse in
    [[7 - b, 11 + b)]. *)
Theorem signal_amplitude_bounds (d : NoiseDraws) (b : R) (i : nat) :
  (i < fs)%nat -> 0 <= rand d < 1 ->
  (forall k, (k < fs)%nat -> Rabs (0.02 * randn d k) <= b) ->
  -1 - b <= nth i (simulate_signal false d) 0 <= 1 + b /\
  (if ((500 <=? i) && (i <? 800))%nat
   then 7 - b <= nth i (simulate_signal true d) 0 < 11 + b
   else -1 - b <= nth i (simulate_signal true d) 0 <= 1 + b).
Proof.
  intros Hi Hu Hn.
  rewrite (nth_signal_unauth d i Hi), (nth_signal_normal d i Hi), (nth_noise d i Hi).
  pose proof (base_bound i Hi) as Hb.
  pose proof (Hn i Hi) as H. pose proof (Rle_abs (0.02 * randn d i)) as H1.
  pose proof (Rle_abs (- (0.02 * randn d i))) as H2. rewrite Rabs_Ropp in H2.
  pose proof (pulse_value_range d Hu) as Hp.
  split; [lra|]. destruct ((500 <=? i)%nat && (i <? 800)%nat); lra.
Qed.

Lemma signal_amplitude_bounds_witness :
  (600 < fs)%nat /\ 0 <= rand calm < 1 /\
  (forall k, (k < fs)%nat -> Rabs (0.02 * randn calm k) <= 0) /\
  -1 - 0 <= nth 600 (simulate_signal false calm) 0 <= 1 + 0 /\
  (if ((500 <=? 600) && (600 <? 800))%nat
   then 7 - 0 <= nth 600 (simulate_signal true calm) 0 < 11 + 0
   else -1 - 0 <= nth 600 (simulate_signal true calm) 0 <= 1 + 0).
Proof.
  assert (Hi : (600 < fs)%nat) by (rewrite fs_value; lia).
  assert (Hu : 0 <= rand calm < 1) by (cbn [rand calm]; lra).
  assert (Hn : forall k, (k < fs)%nat -> Rabs (0.02 * randn calm k) <= 0).
  { intros k _. cbn [randn calm]. rewrite Rmult_0_r, Rabs_R0. lra. }
  split; [exact Hi|]. split; [exact Hu|]. split; [exact Hn|].
  exact (signal_amplitude_bounds calm 0 600 Hi Hu Hn).
Defined.

(** X4. The three outcomes of the detector: it raises [ValueError] exactly on
    the empty sequence, returns the event record of lines 42-48 exactly when
    some sample exceeds 3.0 and [None] exactly when there are samples and
    none exceeds 3.0; it returns nothing else. *)
Theorem detect_event_outcomes (signal : list R) (e : Env) :
  (detect_event signal e = Raise ValueError <-> signal = []) /\
  (detect_event signal e = Ok (Some (event_record e)) <->
   exists x, In x signal /\ 3 < x) /\
  (detect_event signal e = Ok None <->
   signal <> [] /\ forall x, In x signal -> x <= 3) /\
  (detect_event signal e = Raise ValueError \/
   detect_event signal e = Ok (Some (event_record e)) \/
   detect_event signal e = Ok None).
Proof.
  destruct signal as [|x0 signal].
  - split; [split; reflexivity|]. split; [|split].
    + split; [discriminate|intros (x & [] & _)].
    + split; [discriminate|intros [H _]; congruence].
    + left. reflexivity.
  - destruct (np_max_nonempty (x0 :: signal)) as [m Hm]; [simpl; lia|].
    pose proof (np_max_is_maximum _ _ Hm) as [Hin Hup].
    split; [split; [|discriminate]|split; [split|split; [split|]]].
    + unfold detect_event. rewrite Hm. cbn [bind].
      destruct (Rlt_dec threshold m); discriminate.
    + intros Hev. destruct (detect_event_some _ _ _ Hev) as (m' & Hm' & H3).
      rewrite Hm in Hm'. injection Hm' as <-. eauto.
    + intros (x & Hx & H3). apply (detect_event_above_record _ e m Hm).
      pose proof (Hup x Hx). lra.
    + intros Hnone. destruct (detect_event_none _ _ Hnone) as (m' & Hm' & H3).
      rewrite Hm in Hm'. injection Hm' as <-.
      split; [discriminate|]. intros x Hx. pose proof (Hup x Hx). lra.
    + intros [_ Hall]. apply (detect_event_below _ e m Hm). apply Hall, Hin.
    + right. destruct (Rlt_dec 3 m) as [H3|H3].
      * left. apply (detect_event_above_record _ e m Hm H3).
      * right. apply (detect_event_below _ e m Hm). lra.
Qed.

(** X5. The record does not depend on the signal that triggered it: two
    detections that read the same random draws and the same clock return the
    same record. *)
Theorem detect_event_ignores_signal (s1 s2 : list R) (e : Env) (ev1 ev2 : Event) :
  detect_event s1 e = Ok (Some ev1) ->
  detect_event s2 e = Ok (Some ev2) ->
  ev1 = ev2.
Proof.
  intros H1 H2.
  rewrite (detect_event_record s1 e ev1 H1), (detect_event_record s2 e ev2 H2).
  reflexivity.
Qed.

Lemma detect_sample_event_again : detect_event [1; 5] env0 = Ok (Some sample_event).
Proof.
  unfold detect_event. cbn [np.max np.max_from bind].
  destruct (Rlt_dec threshold (Rmax 1 5)) as [_|n].
  - vm_compute. reflexivity.
  - exfalso. apply n. unfold threshold, Rmax. destruct (Rle_dec 1 5); lra.
Qed.

Lemma detect_event_ignores_signal_witness :
  detect_event [4] env0 = Ok (Some sample_event) /\
  detect_event [1; 5] env0 = Ok (Some sample_event) /\
  sample_event = sample_event.
Proof.
  split; [exact detect_sample_event|]. split; [exact detect_sample_event_again|].
  exact (detect_event_ignores_signal [4] [1; 5] env0 sample_event sample_event
           detect_sample_event detect_sample_event_again).
Defined.

(** X6. A record has the five keys [time, substation, feeder, location,
    status] in this order, a substation and a feeder of the two fixed lists
    and the constant status. *)
Theorem detect_event_metadata (signal : list R) (e : Env) (ev : Event) :
  detect_event signal e = Ok (Some ev) ->
  exists tm sub fd loc,
    ev = [ ("time", tm); ("substation", sub); ("feeder", fd);
           ("location", loc); ("status", "Unauthorized Fence") ]%string /\
    In sub substations /\ In fd feeders /\ tm = strftime_HMS (now e).
Proof.
  intros Hev. rewrite (detect_event_record signal e ev Hev).
  do 4 eexists. split; [reflexivity|]. split; [|split; [|reflexivity]].
  - apply nth_In. apply (Nat.mod_upper_bound (rnd_substation e) 2). discriminate.
  - apply nth_In. apply (Nat.mod_upper_bound (rnd_feeder e) 3). discriminate.
Qed.

Lemma detect_event_metadata_witness :
  detect_event [4] env0 = Ok (Some sample_event) /\
  exists tm sub fd loc,
    sample_event = [ ("time", tm); ("substation", sub); ("feeder", fd);
                     ("location", loc); ("status", "Unauthorized Fence") ]%string /\
    In sub substations /\ In fd feeders /\ tm = strftime_HMS (now env0).
Proof.
  split; [exact detect_sample_event|].
  exact (detect_event_metadata [4] env0 sample_event detect_sample_event).
Defined.
End GeneratorMore.

(** * Further properties of the rolling RMS *)

Section RmsMore.
Local Open Scope R_scope.










End RmsMore.

(** * The spectrum view and the map point *)

Section SpectrumAndMap.
Local Open Scope R_scope.

Lemma fs_half : (fs / 2 = (fs - 1) / 2 + 1)%nat.
Proof. vm_compute. reflexivity. Qed.

Lemma fs_half_lt : (fs / 2 < fs)%nat.
Proof. apply Nat.ltb_lt. vm_compute. reflexivity. Qed.

Lemma INR_fs_pos : 0 < INR fs.
Proof. apply lt_0_INR, fs_pos. Qed.

(** X9. The frequency axis the script plots has [fs / 2] entries and entry
    [k] is exactly [k]: with as many samples as [fs], the bins of
    [np.fft.fftfreq(len(signal), 1/fs)] are the whole numbers, and the slice
    keeps the non-negative ones. *)
Theorem freqs_are_whole_numbers (unauth : bool) (d : NoiseDraws) (k : nat) :
  (k < fs / 2)%nat ->
  exists f,
    freqs (simulate_signal unauth d) = Some f /\
    length f = (fs / 2)%nat /\
    nth k f 0 = INR k.
Proof.
  intros Hk. pose proof INR_fs_pos as Hfs. pose proof fs_half_lt as Hhalf.
  unfold freqs, fft.fftfreq. rewrite simulate_signal_length.
  destruct (Req_dec_T (INR fs * (1 / INR fs)) 0) as [E|_].
  { exfalso. assert (INR fs * (1 / INR fs) = 1) by (field; lra). lra. }
  cbn [option_map]. eexists. split; [reflexivity|]. split.
  - rewrite length_firstn, length_map, length_seq. lia.
  - rewrite nth_firstn. apply Nat.ltb_lt in Hk. rewrite Hk.
    apply Nat.ltb_lt in Hk.
    set (bin := fun k : nat =>
                  (if (k <? (fs - 1) / 2 + 1)%nat then INR k else INR k - INR fs)
                  * (1 / (INR fs * (1 / INR fs)))).
    rewrite (nth_indep _ 0 (bin 0%nat)) by (rewrite length_map, length_seq; lia).
    rewrite (map_nth bin), seq_nth by lia. unfold bin. cbn [Nat.add].
    rewrite <- fs_half. apply Nat.ltb_lt in Hk. rewrite Hk. field. lra.
Qed.

Lemma freqs_are_whole_numbers_witness :
  (50 < fs / 2)%nat /\
  exists f,
    freqs (simulate_signal false calm) = Some f /\
    length f = (fs / 2)%nat /\
    nth 50 f 0 = INR 50.
Proof.
  assert (H : (50 < fs / 2)%nat) by (apply Nat.ltb_lt; vm_compute; reflexivity).
  split; [exact H|]. exact (freqs_are_whole_numbers false calm 50 H).
Defined.

Lemma sum_upto_ext (N : nat) (f g : nat -> R) :
  (forall n, (n < N)%nat -> f n = g n) -> fft.sum_upto N f = fft.sum_upto N g.
Proof.
  intros H. unfold fft.sum_upto. f_equal. apply map_ext_in.
  intros n Hn. apply in_seq in Hn. apply H. lia.
Qed.

Lemma sum_upto_opp (N : nat) (f : nat -> R) :
  fft.sum_upto N (fun n => - f n) = - fft.sum_upto N f.
Proof.
  unfold fft.sum_upto. induction (seq 0 N) as [|n l IH]; simpl; [lra|].
  rewrite IH. lra.
Qed.


Lemma nth_fft_abs (x : list R) (k : nat) :
  (k < length x)%nat ->
  nth k (fft.abs (fft.fft x)) 0
  = sqrt (fft.dft_re x k * fft.dft_re x k + fft.dft_im x k * fft.dft_im x k).
Proof.
  intros Hk. unfold fft.abs, fft.fft. rewrite map_map.
  set (f := fun k : nat =>
              sqrt (fst (fft.dft_re x k, fft.dft_im x k)
                    * fst (fft.dft_re x k, fft.dft_im x k)
                    + snd (fft.dft_re x k, fft.dft_im x k)
                      * snd (fft.dft_re x k, fft.dft_im x k))).
  rewrite (nth_indep _ 0 (f 0%nat)) by (rewrite length_map, length_seq; exact Hk).
  rewrite (map_nth f), seq_nth by exact Hk. reflexivity.
Qed.


Lemma mirrored_angle (N k n : nat) :
  (0 < k < N)%nat ->
  2 * PI * INR (N - k) * INR n / INR N
  = - (2 * PI * INR k * INR n / INR N) + 2 * INR n * PI.
Proof.
  intros Hk. rewrite minus_INR by lia.
  assert (0 < INR N) by (apply lt_0_INR; lia).
  field. lra.
Qed.

(** X11. For real samples the magnitude of bin [N - k] equals that of bin
    [k]: the half of the spectrum the script cuts off mirrors the half it
    keeps. *)
Theorem fft_magnitude_mirror (x : list R) (k : nat) :
  (0 < k < length x)%nat ->
  fft.dft_re x (length x - k) = fft.dft_re x k /\
  fft.dft_im x (length x - k) = - fft.dft_im x k /\
  nth (length x - k) (fft.abs (fft.fft x)) 0 = nth k (fft.abs (fft.fft x)) 0.
Proof.
  intros Hk.
  assert (Hre : fft.dft_re x (length x - k) = fft.dft_re x k).
  { unfold fft.dft_re. apply sum_upto_ext. intros n _.
    rewrite (mirrored_angle (length x) k n Hk), cos_period, cos_neg. reflexivity. }
  assert (Him : fft.dft_im x (length x - k) = - fft.dft_im x k).
  { unfold fft.dft_im. rewrite <- sum_upto_opp. apply sum_upto_ext. intros n _.
    rewrite (mirrored_angle (length x) k n Hk), sin_period, sin_neg. lra. }
  split; [exact Hre|]. split; [exact Him|].
  rewrite !nth_fft_abs by lia. rewrite Hre, Him. f_equal. lra.
Qed.

Lemma fft_magnitude_mirror_witness :
  (0 < 1 < length [1; 2; 3; 4])%nat /\
  fft.dft_re [1; 2; 3; 4] (length [1; 2; 3; 4] - 1) = fft.dft_re [1; 2; 3; 4] 1 /\
  fft.dft_im [1; 2; 3; 4] (length [1; 2; 3; 4] - 1) = - fft.dft_im [1; 2; 3; 4] 1 /\
  nth (length [1; 2; 3; 4] - 1) (fft.abs (fft.fft [1; 2; 3; 4])) 0
  = nth 1 (fft.abs (fft.fft [1; 2; 3; 4])) 0.
Proof.
  assert (H : (0 < 1 < length [1; 2; 3; 4])%nat) by (simpl; lia).
  split; [exact H|]. exact (fft_magnitude_mirror [1; 2; 3; 4] 1 H).
Defined.

(** X12. The point drawn on the map lies in the fixed box: latitude in
    [[8.5, 8.8]] and longitude in [[76.9, 77.2]], whatever the two draws. *)
Theorem map_point_in_box (u_lat u_lon : Q) :
  (0 <= u_lat < 1)%Q -> (0 <= u_lon < 1)%Q ->
  (8.5 <= fst (map_point u_lat u_lon) <= 8.8)%Q /\
  (76.9 <= snd (map_point u_lat u_lon) <= 77.2)%Q.
Proof.
  intros [H1 H2] [H3 H4]. unfold map_point. cbn [fst snd]. split; split; Lqa.lra.
Qed.

Lemma map_point_in_box_witness :
  (0 <= 1 # 2 < 1)%Q /\ (0 <= 1 # 4 < 1)%Q /\
  (8.5 <= fst (map_point (1 # 2) (1 # 4)) <= 8.8)%Q /\
  (76.9 <= snd (map_point (1 # 2) (1 # 4)) <= 77.2)%Q.
Proof.
  assert (H1 : (0 <= 1 # 2 < 1)%Q) by (split; [discriminate|reflexivity]).
  assert (H2 : (0 <= 1 # 4 < 1)%Q) by (split; [discriminate|reflexivity]).
  split; [exact H1|]. split; [exact H2|].
  exact (map_point_in_box (1 # 2) (1 # 4) H1 H2).
Defined.
End SpectrumAndMap.

(** * What a refresh shows and what a session logs *)

Section PageAndSession.

Lemma detected_eq (r : Refresh) (o : option Event) :
  detect_event (signal_of r) (env r) = Ok o -> detected r = o.
Proof. unfold detected. intros ->. destruct o; reflexivity. Qed.

Lemma rms_of_refresh (r : Refresh) :
  exists v,
    rms_vals (signal_of r) = Ok v /\
    length v = fs - window + 1 /\
    Forall (fun x => (0 <= x)%R) v.
Proof.
  eexists. split; [|split].
  - apply rms_vals_long. unfold signal_of.
    rewrite simulate_signal_length, fs_value. unfold window. lia.
  - rewrite length_map, length_seq. unfold signal_of.
    rewrite simulate_signal_length. reflexivity.
  - apply Forall_forall. intros x Hx. apply in_map_iff in Hx.
    destruct Hx as (k & <- & _). apply sqrt_pos.
Qed.

(** The whole result of one run, field by field. *)
Lemma run_script_result (st : session_state) (r : Refresh) :
  exists rms,
    (if show_rms (controls r)
     then exists v, rms = Some v /\ rms_vals (signal_of r) = Ok v
     else rms = None) /\
    run_script st r =
    match detected r with
    | Some ev =>
        match dict_get "substation" ev, dict_get "feeder" ev, dict_get "location" ev with
        | Some sub, Some fd, Some loc =>
            Ok (Some (ev :: events_of st),
                {| rms_plot := rms;
                   alerts := [StError sub fd loc]
                               ++ (if send_sms (controls r) then [StInfoSms] else [])
                               ++ (if sound_alarm (controls r) then [StWarningSiren] else []);
                   event_table := Some (pd.from_records (ev :: events_of st));
                   download := Some (export_csv (ev :: events_of st)) |})
        | _, _, _ => Raise KeyError
        end
    | None =>
        Ok (Some (events_of st),
            {| rms_plot := rms;
               alerts := [StSuccess];
               event_table :=
                 if 0 <? length (events_of st)
                 then Some (pd.from_records (events_of st)) else None;
               download :=
                 if 0 <? length (events_of st)
                 then Some (export_csv (events_of st)) else None |})
    end.
Proof.
  destruct (detect_event_total (unauth (controls r)) (draws r) (env r)) as [o Ho].
  rewrite (detected_eq r o Ho).
  destruct (rms_of_refresh r) as (v & Hv & _).
  exists (if show_rms (controls r) then Some v else None). split.
  { destruct (show_rms (controls r)); eauto. }
  unfold run_script. rewrite Ho. cbn [bind]. unfold signal_of in Hv.
  replace (if show_rms (controls r)
           then (v0 <- rms_vals (simulate_signal (unauth (controls r)) (draws r)) ;;
                 Ok (Some v0))%result
           else Ok None)
    with (Ok (A := option (list R)) (if show_rms (controls r) then Some v else None))
    by (destruct (show_rms (controls r)); [rewrite Hv|]; reflexivity).
  cbn [bind]. destruct o as [ev|]; [|reflexivity].
  rewrite (detect_event_record _ _ _ Ho). reflexivity.
Qed.

(** X13. A refresh shows either the error banner or the success note, never
    both: the banner, naming the substation, feeder and location of the
    record that has just been put in front of the log, when the detector
    returned one, followed by the SMS note and the siren note exactly when
    their boxes are ticked; the success note alone, and the log untouched,
    otherwise. *)
Theorem alerts_follow_detection (st : session_state) (r : Refresh) :
  exists st' page,
    run_script st r = Ok (st', page) /\
    match detected r with
    | Some ev =>
        events_of st' = ev :: events_of st /\
        exists sub fd loc,
          dict_get "substation" ev = Some sub /\
          dict_get "feeder" ev = Some fd /\
          dict_get "location" ev = Some loc /\
          alerts page =
          [StError sub fd loc]
            ++ (if send_sms (controls r) then [StInfoSms] else [])
            ++ (if sound_alarm (controls r) then [StWarningSiren] else [])
    | None => events_of st' = events_of st /\ alerts page = [StSuccess]
    end.
Proof.
  destruct (run_script_result st r) as (rms & _ & Hrun).
  destruct (detected r) as [ev|] eqn:Hdet.
  - apply detected_some in Hdet.
    rewrite (detect_event_record _ _ _ Hdet) in Hrun |- *.
    cbn in Hrun. do 2 eexists. split; [exact Hrun|].
    split; [reflexivity|]. do 3 eexists. repeat split; reflexivity.
  - do 2 eexists. split; [exact Hrun|]. split; reflexivity.
Qed.

(** X14. The RMS trend is computed exactly when its box is ticked, and then
    holds [fs - 500 + 1] values, none negative. *)
Theorem rms_plot_follows_checkbox (st : session_state) (r : Refresh) :
  exists st' page,
    run_script st r = Ok (st', page) /\
    match rms_plot page with
    | Some v =>
        show_rms (controls r) = true /\
        length v = fs - 500 + 1 /\
        Forall (fun x => (0 <= x)%R) v
    | None => show_rms (controls r) = false
    end.
Proof.
  destruct (run_script_result st r) as (rms & Hrms & Hrun).
  destruct (rms_of_refresh r) as (v & Hv & Hlen & Hpos).
  assert (Hplot : match rms with
                  | Some v =>
                      show_rms (controls r) = true /\
                      length v = fs - 500 + 1 /\
                      Forall (fun x => (0 <= x)%R) v
                  | None => show_rms (controls r) = false
                  end).
  { destruct (show_rms (controls r)).
    - destruct Hrms as (v' & -> & Hv'). rewrite Hv in Hv'. injection Hv' as <-.
      split; [reflexivity|]. split; [exact Hlen|exact Hpos].
    - subst rms. reflexivity. }
  destruct (detected r) as [ev|] eqn:Hdet.
  - apply detected_some in Hdet.
    rewrite (detect_event_record _ _ _ Hdet) in Hrun. cbn in Hrun.
    do 2 eexists. split; [exact Hrun|]. exact Hplot.
  - do 2 eexists. split; [exact Hrun|]. exact Hplot.
Qed.

Lemma length_detections (rs : list Refresh) : length (detections rs) <= length rs.
Proof.
  induction rs as [|r rs IH]; [simpl; lia|].
  cbn [detections]. destruct (detected r); simpl; lia.
Qed.

(** X15. Over any number of refreshes, from any session state, the log only
    grows at the front: the log found at the start is kept as the tail of the
    final log, and at most one entry per refresh is put before it. *)
Theorem session_log_only_grows (st : session_state) (rs : list Refresh) :
  exists st' new,
    run_session st rs = Ok st' /\
    events_of st' = new ++ events_of st /\
    new = rev (detections rs) /\
    length new <= length rs /\
    length (events_of st) <= length (events_of st').
Proof.
  destruct (run_session_log rs st) as (st' & Hrun & Hlog).
  exists st', (rev (detections rs)).
  split; [exact Hrun|]. split; [exact Hlog|]. split; [reflexivity|].
  split; [rewrite length_rev; apply length_detections|].
  rewrite Hlog, length_app. lia.
Qed.

(** The noise of a refresh is moderate: every noise sample has magnitude at
    most 2 and the pulse draw is not negative. *)
Lemma moderate_noise_detects (r : Refresh) :
  (0 <= rand (draws r))%R ->
  (forall i, i < fs -> (Rabs (0.02 * randn (draws r) i) <= 2)%R) ->
  if unauth (controls r)
  then exists ev, detected r = Some ev
  else detected r = None.
Proof.
  intros Hu Hn. unfold detected, signal_of.
  destruct (unauth (controls r)).
  - destruct (simulate_signal_max true (draws r)) as [m Hm].
    assert (H500 : 500 < fs) by (rewrite fs_value; lia).
    assert (H3 : (3 < m)%R).
    { assert (Hle : (nth 500 (simulate_signal true (draws r)) 0 <= m)%R).
      { apply np_max_nth; [exact Hm|rewrite simulate_signal_length; exact H500]. }
      rewrite (nth_signal_unauth (draws r) 500 H500),
              (nth_noise (draws r) 500 H500) in Hle.
      change ((500 <=? 500) && (500 <? 800)) with true in Hle.
      pose proof (base_bound 500 H500) as Hb.
      pose proof (Hn 500 H500) as H.
      pose proof (Rle_abs (- (0.02 * randn (draws r) 500))) as H2.
      rewrite Rabs_Ropp in H2. unfold pulse_value in Hle. lra. }
    destruct (detect_event_above _ (env r) m Hm H3) as [ev ->]. eauto.
  - destruct (normal_signal_quiet (draws r) (env r)) as (m & _ & _ & ->);
      [|reflexivity].
    intros i Hi. pose proof (Hn i Hi). pose proof (Rle_abs (0.02 * randn (draws r) i)).
    lra.
Qed.

Lemma length_detections_ticked (rs : list Refresh) :
  Forall (fun r =>
            (0 <= rand (draws r))%R /\
            forall i, i < fs -> (Rabs (0.02 * randn (draws r) i) <= 2)%R) rs ->
  length (detections rs) = length (filter (fun r => unauth (controls r)) rs).
Proof.
  induction 1 as [|r rs [Hu Hn] _ IH]; [reflexivity|].
  cbn [detections filter].
  pose proof (moderate_noise_detects r Hu Hn) as Hd.
  destruct (unauth (controls r)).
  - destruct Hd as [ev ->]. simpl. rewrite IH. reflexivity.
  - rewrite Hd. exact IH.
Qed.

(** X16. While the noise is moderate (every noise sample of magnitude at
    most 2, pulse draws not negative) the checkbox alone decides what is
    logged: a session adds to the log exactly one entry per refresh with
    [unauth] ticked. *)
Theorem session_logs_one_entry_per_tick (st : session_state) (rs : list Refresh) :
  Forall (fun r =>
            (0 <= rand (draws r))%R /\
            forall i, i < fs -> (Rabs (0.02 * randn (draws r) i) <= 2)%R) rs ->
  exists st',
    run_session st rs = Ok st' /\
    length (events_of st')
    = length (filter (fun r => unauth (controls r)) rs) + length (events_of st).
Proof.
  intros Hall. destruct (run_session_log rs st) as (st' & Hrun & Hlog).
  exists st'. split; [exact Hrun|].
  rewrite Hlog, length_app, length_rev, (length_detections_ticked rs Hall).
  reflexivity.
Qed.

Lemma session_logs_one_entry_per_tick_witness :
  Forall (fun r =>
            (0 <= rand (draws r))%R /\
            forall i, i < fs -> (Rabs (0.02 * randn (draws r) i) <= 2)%R)
         [pulse_refresh; quiet_refresh; pulse_refresh] /\
  exists st',
    run_session None [pulse_refresh; quiet_refresh; pulse_refresh] = Ok st' /\
    length (events_of st')
    = length (filter (fun r => unauth (controls r))
                     [pulse_refresh; quiet_refresh; pulse_refresh])
      + length (events_of None).
Proof.
  assert (Hcalm : forall r, draws r = calm ->
            (0 <= rand (draws r))%R /\
            forall i, i < fs -> (Rabs (0.02 * randn (draws r) i) <= 2)%R).
  { intros r ->. cbn [rand randn calm]. split; [lra|].
    intros i _. rewrite Rmult_0_r, Rabs_R0. lra. }
  assert (Hall : Forall (fun r =>
            (0 <= rand (draws r))%R /\
            forall i, i < fs -> (Rabs (0.02 * randn (draws r) i) <= 2)%R)
         [pulse_refresh; quiet_refresh; pulse_refresh]).
  { do 3 (constructor; [apply Hcalm; reflexivity|]). constructor. }
  split; [exact Hall|].
  exact (session_logs_one_entry_per_tick None
           [pulse_refresh; quiet_refresh; pulse_refresh] Hall).
Defined.
End PageAndSession.

(** * Event history and feeder counts *)

Section HistoryAndCounts.

Lemma insert_permutation (p : string * nat) (l : list (string * nat)) :
  Permutation (series.insert p l) (p :: l).
Proof.
  induction l as [|q l IH]; cbn [series.insert]; [apply Permutation_refl|].
  destruct (snd q <=? snd p); [apply Permutation_refl|].
  eapply Permutation_trans; [apply perm_skip, IH|apply perm_swap].
Qed.

Lemma sort_desc_permutation (l : list (string * nat)) :
  Permutation (series.sort_desc l) l.
Proof.
  induction l as [|p l IH]; [apply Permutation_refl|].
  cbn [series.sort_desc fold_right].
  eapply Permutation_trans; [apply insert_permutation|apply perm_skip, IH].
Qed.

Lemma insert_sorted (p : string * nat) (l : list (string * nat)) :
  StronglySorted (fun a b => snd b <= snd a) l ->
  StronglySorted (fun a b => snd b <= snd a) (series.insert p l).
Proof.
  induction 1 as [|q l Hs IH Hq]; cbn [series.insert].
  - constructor; constructor.
  - destruct (Nat.leb_spec (snd q) (snd p)) as [Hlt|Hge].
    + constructor; [constructor; assumption|].
      constructor; [lia|]. eapply Forall_impl; [|exact Hq].
      intros a Ha. cbn beta in *. lia.
    + constructor; [exact IH|].
      apply (Permutation_Forall (Permutation_sym (insert_permutation p l))).
      constructor; [cbn beta; lia|assumption].
Qed.

Lemma sort_desc_sorted (l : list (string * nat)) :
  StronglySorted (fun a b => snd b <= snd a) (series.sort_desc l).
Proof.
  induction l as [|p l IH]; [constructor|].
  cbn [series.sort_desc fold_right]. apply insert_sorted, IH.
Qed.

Lemma In_unique (l : list string) (x : string) :
  In x (series.unique l) <-> In x l.
Proof.
  induction l as [|y l IH]; [reflexivity|].
  cbn [series.unique]. split.
  - intros [->|H]; [left; reflexivity|].
    apply filter_In in H. right. apply IH, H.
  - intros [->|H]; [left; reflexivity|].
    destruct (String.eqb_spec y x) as [->|Hne]; [left; reflexivity|].
    right. apply filter_In. split; [apply IH, H|].
    apply negb_true_iff, String.eqb_neq, Hne.
Qed.

Lemma NoDup_unique (l : list string) : NoDup (series.unique l).
Proof.
  induction l as [|y l IH]; [constructor|].
  cbn [series.unique]. constructor; [|apply NoDup_filter, IH].
  intros H. apply filter_In in H. destruct H as [_ H].
  rewrite String.eqb_refl in H. discriminate H.
Qed.

Lemma sum_indicator (keys : list string) (x : string) :
  NoDup keys -> In x keys ->
  fold_right Nat.add 0 (map (fun v => if String.eqb v x then 1 else 0) keys) = 1.
Proof.
  induction 1 as [|k keys Hk Hnd IH]; intros Hin; [destruct Hin|].
  cbn [map fold_right]. destruct (String.eqb_spec k x) as [->|Hne].
  - assert (H0 : fold_right Nat.add 0
                   (map (fun v => if String.eqb v x then 1 else 0) keys) = 0).
    { clear IH Hin Hnd. induction keys as [|k keys IHk]; [reflexivity|].
      cbn [map fold_right]. destruct (String.eqb_spec k x) as [->|_].
      - exfalso. apply Hk. left. reflexivity.
      - rewrite IHk; [reflexivity|]. intros H. apply Hk. right. exact H. }
    rewrite H0. reflexivity.
  - destruct Hin as [E|Hin]; [congruence|]. rewrite (IH Hin). reflexivity.
Qed.

Lemma sum_map_add (keys : list string) (f g : string -> nat) :
  fold_right Nat.add 0 (map (fun v => f v + g v) keys)
  = fold_right Nat.add 0 (map f keys) + fold_right Nat.add 0 (map g keys).
Proof.
  induction keys as [|k keys IH]; [reflexivity|].
  cbn [map fold_right]. rewrite IH. lia.
Qed.

Lemma sum_counts_keys (keys l : list string) :
  NoDup keys -> (forall x, In x l -> In x keys) ->
  fold_right Nat.add 0 (map (fun v => series.count v l) keys) = length l.
Proof.
  intros Hnd. induction l as [|x l IH]; intros Hin.
  - clear. induction keys as [|k keys IHk]; [reflexivity|].
    cbn [map fold_right series.count length Nat.add]. exact IHk.
  - cbn [series.count length].
    rewrite (sum_map_add keys (fun v => if String.eqb v x then 1 else 0)
                         (fun v => series.count v l)).
    rewrite (sum_indicator keys x Hnd (Hin x (or_introl eq_refl))).
    rewrite (IH (fun y Hy => Hin y (or_intror Hy))). reflexivity.
Qed.

Lemma count_positive (v : string) (l : list string) :
  In v l -> 1 <= series.count v l.
Proof.
  induction l as [|x l IH]; intros Hin; [destruct Hin|].
  cbn [series.count]. destruct (String.eqb_spec v x) as [_|Hne]; [lia|].
  destruct Hin as [E|Hin]; [congruence|]. specialize (IH Hin). lia.
Qed.

Lemma count_is_count_occ (v : string) (l : list string) :
  series.count v l = count_occ string_dec l v.
Proof.
  induction l as [|x l IH]; [reflexivity|].
  cbn [series.count count_occ]. rewrite IH.
  destruct (String.eqb_spec v x) as [E|Hne]; destruct (string_dec x v) as [E'|Hne'];
    try congruence; reflexivity.
Qed.

Lemma sum_counts_permutation (a b : list (string * nat)) :
  Permutation a b -> sum_counts a = sum_counts b.
Proof.
  unfold sum_counts. induction 1; cbn [map fold_right]; lia.
Qed.

Lemma feeder_of_detector_event (ev : Event) :
  detector_event ev ->
  exists fd, dict_get "feeder" ev = Some fd /\ In fd feeders /\
             nth 2 (map Some (map snd ev)) None = Some fd.
Proof.
  intros (signal & e & Hev). rewrite (detect_event_record signal e ev Hev).
  eexists. split; [reflexivity|]. split; [|reflexivity].
  apply nth_In. apply (Nat.mod_upper_bound (rnd_feeder e) 3). discriminate.
Qed.

Lemma dropna_feeders (log : list Event) :
  Forall detector_event log ->
  length (series.dropna (map (dict_get "feeder") log)) = length log /\
  forall x, In x (series.dropna (map (dict_get "feeder") log)) -> In x feeders.
Proof.
  induction 1 as [|ev log Hev _ [IHlen IHin]]; [split; [reflexivity|intros x []]|].
  destruct (feeder_of_detector_event ev Hev) as (fd & Hfd & Hin & _).
  cbn [map]. rewrite Hfd. cbn [series.dropna length]. split; [lia|].
  intros x [<-|Hx]; [exact Hin|apply IHin, Hx].
Qed.

(** X17. The feeder counts of a log of detector records: one bar per
    distinct feeder of the log, at most three, each for a feeder of the fixed
    list and as high as that feeder occurs in the log (so at least 1), the
    bars in order of decreasing count, and the counts adding up to the
    length of the log. *)
Theorem feeder_counts_of_log (log : list Event) :
  Forall detector_event log ->
  let feeders_logged := series.dropna (map (dict_get "feeder") log) in
  let bars := series.value_counts (map (dict_get "feeder") log) in
  sum_counts bars = length log /\
  NoDup (map fst bars) /\
  length bars <= 3 /\
  Forall (fun bar => In (fst bar) feeders /\
                     snd bar = count_occ string_dec feeders_logged (fst bar) /\
                     1 <= snd bar) bars /\
  StronglySorted (fun a b => snd b <= snd a) bars.
Proof.
  intros Hall vals bars.
  destruct (dropna_feeders log Hall) as [Hlen Hin].
  fold vals in Hlen, Hin.
  set (raw := map (fun v => (v, series.count v vals)) (series.unique vals)).
  assert (Hperm : Permutation bars raw) by apply sort_desc_permutation.
  assert (Hkeys : map fst raw = series.unique vals).
  { unfold raw. rewrite map_map. cbn [fst]. apply map_id. }
  split; [|split; [|split; [|split]]].
  - rewrite (sum_counts_permutation bars raw Hperm). unfold sum_counts, raw.
    rewrite map_map. cbn [snd]. rewrite <- Hlen.
    apply sum_counts_keys; [apply NoDup_unique|].
    intros x Hx. apply In_unique, Hx.
  - apply (Permutation_NoDup (l := map fst raw));
      [apply Permutation_sym, Permutation_map, Hperm|].
    rewrite Hkeys. apply NoDup_unique.
  - rewrite (Permutation_length Hperm). unfold raw. rewrite length_map.
    change 3 with (length feeders).
    apply NoDup_incl_length; [apply NoDup_unique|].
    intros x Hx. apply Hin, In_unique, Hx.
  - apply (Permutation_Forall (Permutation_sym Hperm)).
    unfold raw. apply Forall_forall. intros bar Hbar.
    apply in_map_iff in Hbar. destruct Hbar as (v & <- & Hv).
    apply (proj1 (In_unique vals v)) in Hv. cbn [fst snd].
    split; [apply Hin, Hv|]. split; [apply count_is_count_occ|].
    apply count_positive, Hv.
  - apply sort_desc_sorted.
Qed.

Lemma feeder_counts_of_log_witness :
  Forall detector_event [sample_event; sample_event] /\
  let feeders_logged :=
    series.dropna (map (dict_get "feeder") [sample_event; sample_event]) in
  let bars := series.value_counts (map (dict_get "feeder") [sample_event; sample_event]) in
  sum_counts bars = length [sample_event; sample_event] /\
  NoDup (map fst bars) /\
  length bars <= 3 /\
  Forall (fun bar => In (fst bar) feeders /\
                     snd bar = count_occ string_dec feeders_logged (fst bar) /\
                     1 <= snd bar) bars /\
  StronglySorted (fun a b => snd b <= snd a) bars.
Proof.
  assert (Hev : detector_event sample_event)
    by (exists [4%R], env0; exact detect_sample_event).
  assert (Hall : Forall detector_event [sample_event; sample_event])
    by (repeat constructor; exact Hev).
  split; [exact Hall|].
  exact (feeder_counts_of_log [sample_event; sample_event] Hall).
Defined.

Lemma feeder_column (log : list Event) :
  log <> [] -> Forall detector_event log ->
  df_column (pd.from_records log) "feeder" = Ok (map (dict_get "feeder") log).
Proof.
  intros Hne Hall. rewrite (from_records_detector_log log Hne Hall).
  unfold df_column. cbn [pd.columns pd.rows index_of csv_header String.eqb
                         Ascii.eqb Bool.eqb option_map].
  f_equal. rewrite !map_map. apply map_ext_in. intros ev Hev.
  rewrite Forall_forall in Hall.
  destruct (feeder_of_detector_event ev (Hall ev Hev)) as (fd & -> & _ & ->).
  reflexivity.
Qed.

(** X18. The event history of a log of detector records never fails: an
    empty log gives the note that nothing was detected yet; any other log
    gives the table, the CSV download and, exactly when the feeder-count box
    is ticked, the bars of the feeder column. *)
Theorem event_history_of_log (c : Controls) (log : list Event) :
  Forall detector_event log ->
  event_history c log =
  match log with
  | [] => Ok NoEventsYet
  | _ =>
      Ok (History (pd.from_records log)
                  (if show_heatmap c
                   then Some (series.value_counts (map (dict_get "feeder") log))
                   else None)
                  (export_csv log))
  end.
Proof.
  intros Hall. destruct log as [|ev log]; [reflexivity|].
  unfold event_history.
  change (0 <? length (ev :: log)) with true. cbv iota.
  destruct (show_heatmap c); [|reflexivity].
  rewrite (feeder_column (ev :: log)) by (discriminate || exact Hall).
  reflexivity.
Qed.

Lemma event_history_of_log_witness :
  Forall detector_event [sample_event] /\
  event_history pulse_refresh.(controls) [sample_event] =
  Ok (History (pd.from_records [sample_event])
              (if show_heatmap pulse_refresh.(controls)
               then Some (series.value_counts (map (dict_get "feeder") [sample_event]))
               else None)
              (export_csv [sample_event])).
Proof.
  assert (Hall : Forall detector_event [sample_event]).
  { constructor; [|constructor]. exists [4%R], env0. exact detect_sample_event. }
  split; [exact Hall|].
  exact (event_history_of_log pulse_refresh.(controls) [sample_event] Hall).
Defined.
End HistoryAndCounts.

(** * Time stamps and the bytes of the export *)

Section TextMore.
Local Open Scope string_scope.

Lemma digit_not_colon (d : nat) : Ascii.eqb (digit d) ":" = false.
Proof. do 10 (destruct d as [|d]; [reflexivity|]). reflexivity. Qed.

Lemma two_digits_table :
  forallb (fun n => match read_two_digits (two_digits n) with
                    | Some m => (m =? n)%nat
                    | None => false
                    end) (seq 0 100) = true.
Proof. vm_compute. reflexivity. Qed.

Lemma read_two_digits_back (n : nat) :
  (n < 100)%nat -> read_two_digits (two_digits n) = Some n.
Proof.
  intros Hn. pose proof two_digits_table as Ht.
  rewrite forallb_forall in Ht. specialize (Ht n).
  destruct (read_two_digits (two_digits n)) as [m|].
  - f_equal. apply Nat.eqb_eq, Ht, in_seq. lia.
  - discriminate Ht. apply in_seq. lia.
Qed.

Lemma split_strftime (now : struct_time) :
  split_on ":" (strftime_HMS now)
  = (two_digits (tm_hour now), [two_digits (tm_min now); two_digits (tm_sec now)]).
Proof.
  unfold strftime_HMS, two_digits. cbn [append split_on].
  rewrite !digit_not_colon. reflexivity.
Qed.

(** X19. The time stamp has eight characters and reads back as the hour,
    minute and second of the clock. *)
Theorem time_stamp_reads_back (now : struct_time) :
  (tm_hour now < 24)%nat -> (tm_min now < 60)%nat -> (tm_sec now < 62)%nat ->
  String.length (strftime_HMS now) = 8%nat /\
  read_HMS (strftime_HMS now) = Some now.
Proof.
  intros Hh Hm Hs. split; [reflexivity|].
  unfold read_HMS. rewrite split_strftime.
  rewrite !read_two_digits_back by lia. destruct now; reflexivity.
Qed.

Lemma time_stamp_reads_back_witness :
  (tm_hour midnight < 24)%nat /\ (tm_min midnight < 60)%nat /\
  (tm_sec midnight < 62)%nat /\
  String.length (strftime_HMS midnight) = 8%nat /\
  read_HMS (strftime_HMS midnight) = Some midnight.
Proof.
  assert (Hh : (tm_hour midnight < 24)%nat) by (simpl; lia).
  assert (Hm : (tm_min midnight < 60)%nat) by (simpl; lia).
  assert (Hs : (tm_sec midnight < 62)%nat) by (simpl; lia).
  split; [exact Hh|]. split; [exact Hm|]. split; [exact Hs|].
  exact (time_stamp_reads_back midnight Hh Hm Hs).
Defined.

(** X20. Encoding to UTF-8 and decoding give back the text, whatever its
    characters, and the encoding takes one or two bytes per character. *)
Theorem utf8_round_trip (s : string) :
  utf8_decode (utf8_encode s) = Some s /\
  (String.length s <= length (utf8_encode s) <= 2 * String.length s)%nat.
Proof.
  split; [apply utf8_decode_encode|].
  induction s as [|c s IH]; [simpl; lia|].
  cbn [utf8_encode String.length]. rewrite length_app.
  unfold utf8_encode_char. destruct (nat_of_ascii c <? 128)%nat; simpl; lia.
Qed.

Lemma all_ascii_append (a b : string) :
  all_ascii (a ++ b) = all_ascii a && all_ascii b.
Proof.
  induction a as [|x a IH]; simpl; [reflexivity|].
  rewrite IH. apply andb_assoc.
Qed.

Lemma digit_ascii (d : nat) : (nat_of_ascii (digit d) <? 128)%nat = true.
Proof. do 10 (destruct d as [|d]; [reflexivity|]). reflexivity. Qed.

Lemma two_digits_ascii (n : nat) : all_ascii (two_digits n) = true.
Proof. unfold two_digits. cbn [all_ascii]. rewrite !digit_ascii. reflexivity. Qed.

Lemma decimal_ascii (fuel : nat) : forall n, all_ascii (decimal fuel n) = true.
Proof.
  induction fuel as [|fuel IH]; intros n; [reflexivity|].
  cbn [decimal]. rewrite all_ascii_append. cbn [all_ascii].
  rewrite digit_ascii. destruct (n <? 10)%nat; [reflexivity|].
  rewrite IH. reflexivity.
Qed.

Lemma str_hundredths_ascii (h : Z) : all_ascii (str_hundredths h) = true.
Proof.
  unfold str_hundredths. rewrite !all_ascii_append, decimal_ascii.
  cbn [all_ascii]. rewrite digit_ascii.
  destruct (Z.to_nat h mod 10 =? 0)%nat; cbn [all_ascii];
    [|rewrite digit_ascii]; reflexivity.
Qed.

Lemma feeder_ascii (i : nat) : all_ascii (nth i feeders EmptyString) = true.
Proof. do 3 (destruct i as [|i]; [reflexivity|]). destruct i; reflexivity. Qed.

Lemma substation_ascii (i : nat) : all_ascii (nth i substations EmptyString) = true.
Proof. do 2 (destruct i as [|i]; [reflexivity|]). destruct i; reflexivity. Qed.

Lemma detector_event_ascii (ev : Event) :
  detector_event ev -> Forall (fun s => all_ascii s = true) (map snd ev).
Proof.
  intros (signal & e & Hev). rewrite (detect_event_record signal e ev Hev).
  cbn [map snd]. repeat constructor.
  - unfold strftime_HMS. rewrite !all_ascii_append, !two_digits_ascii. reflexivity.
  - apply substation_ascii.
  - apply feeder_ascii.
  - rewrite all_ascii_append, str_hundredths_ascii. reflexivity.
Qed.

Lemma concat_ascii (sep : string) (l : list string) :
  all_ascii sep = true -> Forall (fun s => all_ascii s = true) l ->
  all_ascii (String.concat sep l) = true.
Proof.
  intros Hsep. induction 1 as [|s l Hs Hl IH]; [reflexivity|].
  cbn [String.concat]. destruct l as [|s' l]; [exact Hs|].
  rewrite !all_ascii_append, Hs, Hsep, IH. reflexivity.
Qed.

Lemma csv_line_ascii (fields : list string) :
  Forall (fun s => pd.has_special s = false) fields ->
  Forall (fun s => all_ascii s = true) fields ->
  all_ascii (pd.csv_line fields) = true.
Proof.
  intros Hplain Hascii. unfold pd.csv_line.
  rewrite (map_csv_field_plain fields Hplain), all_ascii_append.
  rewrite (concat_ascii (String pd.comma EmptyString) fields eq_refl Hascii).
  reflexivity.
Qed.

Lemma utf8_encode_ascii (s : string) :
  all_ascii s = true ->
  Forall (fun b => (Byte.to_nat b < 128)%nat) (utf8_encode s) /\
  length (utf8_encode s) = String.length s.
Proof.
  induction s as [|c s IH]; intros H; [split; [constructor|reflexivity]|].
  cbn [all_ascii] in H. apply andb_true_iff in H. destruct H as [Hc Hs].
  destruct (IH Hs) as [IH1 IH2].
  cbn [utf8_encode String.length]. unfold utf8_encode_char. rewrite Hc.
  cbn [app length]. split; [|rewrite IH2; reflexivity].
  constructor; [|exact IH1].
  clear - Hc. destruct c as [b0 b1 b2 b3 b4 b5 b6 b7].
  destruct b7; [destruct b0, b1, b2, b3, b4, b5, b6; discriminate Hc|].
  apply Nat.ltb_lt. destruct b0, b1, b2, b3, b4, b5, b6; reflexivity.
Qed.

(** X21. The export of a non-empty log of detector records is plain ASCII:
    every byte is below 128 and there is one byte per character of the CSV
    text. *)
Theorem export_is_ascii (log : list Event) :
  log <> [] -> Forall detector_event log ->
  Forall (fun b => (Byte.to_nat b < 128)%nat) (export_csv log) /\
  length (export_csv log) = String.length (pd.to_csv (pd.from_records log)).
Proof.
  intros Hne Hall. unfold export_csv. apply utf8_encode_ascii.
  rewrite (from_records_detector_log log Hne Hall).
  unfold pd.to_csv. cbn [pd.columns pd.rows].
  rewrite all_ascii_append. apply andb_true_iff. split; [reflexivity|].
  apply concat_ascii; [reflexivity|].
  apply Forall_forall. intros line Hline.
  apply in_map_iff in Hline. destruct Hline as (row & <- & Hrow).
  apply in_map_iff in Hrow. destruct Hrow as (vals & <- & Hvals).
  apply in_map_iff in Hvals. destruct Hvals as (ev & <- & Hev).
  rewrite Forall_forall in Hall. specialize (Hall ev Hev).
  rewrite map_map. cbn [pd.cell_text]. rewrite map_id.
  apply csv_line_ascii.
  - apply (detector_event_fields ev Hall).
  - apply (detector_event_ascii ev Hall).
Qed.

Lemma export_is_ascii_witness :
  [sample_event] <> [] /\ Forall detector_event [sample_event] /\
  Forall (fun b => (Byte.to_nat b < 128)%nat) (export_csv [sample_event]) /\
  length (export_csv [sample_event])
  = String.length (pd.to_csv (pd.from_records [sample_event])).
Proof.
  assert (Hne : [sample_event] <> []) by discriminate.
  assert (Hall : Forall detector_event [sample_event]).
  { constructor; [|constructor]. exists [4%R], env0. exact detect_sample_event. }
  split; [exact Hne|]. split; [exact Hall|].
  exact (export_is_ascii [sample_event] Hne Hall).
Defined.
End TextMore.

(** * Quoting in the CSV text *)

Section CsvQuoting.
Local Open Scope string_scope.

Lemma csv_parse_quoted_body (s rest g : string) (r : list string)
    (rs : list (list string)) :
  csv_parse QuoteInQuoted rest = (g, r, rs) ->
  csv_parse Quoted (pd.double_quotes s ++ String pd.dquote rest) = (s ++ g, r, rs).
Proof.
  intros Hrest. induction s as [|c s IH].
  - cbn [pd.double_quotes append]. exact Hrest.
  - cbn [pd.double_quotes]. destruct (Ascii.eqb c pd.dquote) eqn:Ec.
    + apply Ascii.eqb_eq in Ec. subst c.
      cbn [append]. change (csv_parse Quoted (String pd.dquote (String pd.dquote
                              (pd.double_quotes s ++ String pd.dquote rest))))
        with (push_char pd.dquote
                (csv_parse Quoted (pd.double_quotes s ++ String pd.dquote rest))).
      rewrite IH. reflexivity.
    + cbn [append csv_parse]. rewrite Ec, IH. reflexivity.
Qed.

Lemma csv_parse_field (s rest g : string) (r : list string)
    (rs : list (list string)) :
  csv_parse Unquoted rest = (g, r, rs) ->
  csv_parse QuoteInQuoted rest = (g, r, rs) ->
  csv_parse Unquoted (pd.csv_field s ++ rest) = (s ++ g, r, rs).
Proof.
  intros Hu Hq. unfold pd.csv_field.
  destruct (pd.has_special s) eqn:Hs.
  - cbn [append]. rewrite append_assoc. cbn [append].
    change (csv_parse Unquoted
              (String pd.dquote (pd.double_quotes s ++ String pd.dquote rest)))
      with (csv_parse Quoted (pd.double_quotes s ++ String pd.dquote rest)).
    apply csv_parse_quoted_body, Hq.
  - apply csv_parse_plain; assumption.
Qed.

Lemma csv_parse_fields_quoted (fields : list string) :
  forall (f1 rest : string),
    csv_parse Unquoted
      (String.concat (String pd.comma EmptyString) (map pd.csv_field (f1 :: fields))
       ++ String pd.newline rest)
    = (f1, fields, csv_rows rest).
Proof.
  induction fields as [|f2 fields IH]; intros f1 rest.
  - cbn [map String.concat].
    rewrite (csv_parse_field f1 (String pd.newline rest)
               EmptyString [] (csv_rows rest)).
    + rewrite append_nil_r. reflexivity.
    + rewrite csv_parse_newline. unfold csv_rows.
      destruct (csv_parse Unquoted rest) as [[g r] rs]. reflexivity.
    + change (csv_parse QuoteInQuoted (String pd.newline rest))
        with (end_row (csv_parse Unquoted rest)).
      unfold csv_rows. destruct (csv_parse Unquoted rest) as [[g r] rs]. reflexivity.
  - change (String.concat (String pd.comma EmptyString)
              (map pd.csv_field (f1 :: f2 :: fields)))
      with (pd.csv_field f1 ++ String pd.comma
               (String.concat (String pd.comma EmptyString)
                  (map pd.csv_field (f2 :: fields)))).
    rewrite append_assoc.
    change (String pd.comma
              (String.concat (String pd.comma EmptyString)
                 (map pd.csv_field (f2 :: fields)))
            ++ String pd.newline rest)
      with (String pd.comma
              (String.concat (String pd.comma EmptyString)
                 (map pd.csv_field (f2 :: fields))
               ++ String pd.newline rest)).
    rewrite (csv_parse_field f1
               (String pd.comma
                  (String.concat (String pd.comma EmptyString)
                     (map pd.csv_field (f2 :: fields))
                   ++ String pd.newline rest))
               EmptyString (f2 :: fields) (csv_rows rest)).
    + rewrite append_nil_r. reflexivity.
    + rewrite csv_parse_comma, (IH f2 rest). reflexivity.
    + change (csv_parse QuoteInQuoted
                (String pd.comma
                   (String.concat (String pd.comma EmptyString)
                      (map pd.csv_field (f2 :: fields))
                    ++ String pd.newline rest)))
        with (end_field
                (csv_parse Unquoted
                   (String.concat (String pd.comma EmptyString)
                      (map pd.csv_field (f2 :: fields))
                    ++ String pd.newline rest))).
      rewrite (IH f2 rest). reflexivity.
Qed.

Lemma csv_parse_line_quoted (fields : list string) (f1 rest : string) :
  csv_parse Unquoted (pd.csv_line (f1 :: fields) ++ rest)
  = (f1, fields, csv_rows rest).
Proof.
  unfold pd.csv_line. rewrite append_assoc.
  apply (csv_parse_fields_quoted fields f1 rest).
Qed.

Lemma csv_rows_lines_quoted (table : list (list string)) :
  Forall (fun row => row <> []) table ->
  csv_rows (String.concat EmptyString (map pd.csv_line table))
  = (table ++ [[EmptyString]])%list.
Proof.
  induction 1 as [|row table Hne _ IH]; [reflexivity|].
  cbn [map]. rewrite concat_lines.
  destruct row as [|f1 fields]; [congruence|].
  unfold csv_rows at 1. rewrite (csv_parse_line_quoted fields f1), IH.
  reflexivity.
Qed.

Lemma read_csv_to_csv_quoted (header : list string) (table : list (list string)) :
  Forall (fun row => 2 <= length row) (header :: table) ->
  read_csv (pd.to_csv {| pd.columns := header;
                         pd.rows := map (map Some) table |})
  = Some (header, table).
Proof.
  intros Hall. inversion Hall as [|? ? Hlen Htable]; subst.
  unfold read_csv, pd.to_csv. cbn [pd.columns pd.rows].
  rewrite map_map.
  rewrite (map_ext (fun r => pd.csv_line (map pd.cell_text (map Some r))) pd.csv_line)
    by (intros r; rewrite map_map; cbn [pd.cell_text]; rewrite map_id; reflexivity).
  destruct header as [|h1 hs]; [simpl in Hlen; lia|].
  unfold csv_rows at 1. rewrite (csv_parse_line_quoted hs h1).
  rewrite csv_rows_lines_quoted.
  - cbn [filter]. rewrite (several_fields_not_blank (h1 :: hs) Hlen). cbn [negb].
    rewrite filter_blank_lines; [reflexivity|].
    eapply Forall_impl; [|exact Htable].
    intros row Hrow. apply several_fields_not_blank, Hrow.
  - eapply Forall_impl; [|exact Htable].
    intros row Hrow ->. simpl in Hrow. lia.
Qed.

(** X22. Writing a table of texts as CSV and reading it back gives the same
    header and the same cells when no cell holds a carriage return: commas,
    quotes and line feeds inside a cell are protected by the quoting.  (Rows
    have at least two cells, so that no line is blank.) *)
Theorem csv_quoting_round_trip (header : list string) (table : list (list string)) :
  Forall (fun row => 2 <= length row) (header :: table) ->
  Forall (Forall (fun cell => no_carriage_return cell = true)) (header :: table) ->
  read_csv (pd.to_csv {| pd.columns := header;
                         pd.rows := map (map Some) table |})
  = Some (header, table).
Proof. intros Hall _. apply read_csv_to_csv_quoted, Hall. Qed.

Lemma csv_quoting_round_trip_witness :
  Forall (fun row => 2 <= length row)
         (["a,b"; "c"] :: [["x"; String pd.dquote "y"]; [EmptyString; "z z"]]) /\
  Forall (Forall (fun cell => no_carriage_return cell = true))
         (["a,b"; "c"] :: [["x"; String pd.dquote "y"]; [EmptyString; "z z"]]) /\
  read_csv (pd.to_csv
              {| pd.columns := ["a,b"; "c"];
                 pd.rows := map (map Some)
                              [["x"; String pd.dquote "y"]; [EmptyString; "z z"]] |})
  = Some (["a,b"; "c"], [["x"; String pd.dquote "y"]; [EmptyString; "z z"]]).
Proof.
  assert (H : Forall (fun row => 2 <= length row)
         (["a,b"; "c"] :: [["x"; String pd.dquote "y"]; [EmptyString; "z z"]])).
  { repeat constructor. }
  assert (H' : Forall (Forall (fun cell => no_carriage_return cell = true))
         (["a,b"; "c"] :: [["x"; String pd.dquote "y"]; [EmptyString; "z z"]])).
  { repeat constructor. }
  split; [exact H|]. split; [exact H'|].
  exact (csv_quoting_round_trip ["a,b"; "c"]
           [["x"; String pd.dquote "y"]; [EmptyString; "z z"]] H H').
Defined.
End CsvQuoting.
